(** * Device-session layer of the pqm4 benchmark harness (interface.py)

    Shallow embedding of [SerialCommsPlatform.run] (byte-oriented framed
    reader over a pyserial device), [StLink.flash], [ChipWhisperer.flash]
    and [ChipWhisperer.run] (character-oriented framed reader over a
    polling scope target), together with the parts of the Python runtime
    they rely on: [re] matching of the two delimiter patterns, pyserial's
    [read_until], and CPython's UTF-8 decoder with the ['ignore'] error
    handler. *)

From Stdlib Require Import List String Ascii ZArith Bool Lia.
From Stdlib Require Import Strings.Byte.
Import ListNotations.

(** ** Exceptions and the state/exception monad *)

(** Calls made on the ChipWhisperer [STM32FProgrammer] object. *)
Inductive prog_call := POpen | PFind | PErase | PProgram | PClose.

(** The exceptions the modelled code raises or lets escape. *)
Inductive exn :=
| CalledProcessError (returncode : Z)   (* subprocess.check_call *)
| Exception (msg : string)              (* raise Exception(msg) *)
| ProgrammerError (call : prog_call).   (* raised inside a programmer call *)

(** Result of running a Python function: a value, an escaping exception,
    or [OutOfFuel] when a [while] loop did not finish within the fuel. *)
Inductive outcome (T : Type) :=
| Ok (v : T)
| Raise (e : exn)
| OutOfFuel.
Arguments Ok {T} v.
Arguments Raise {T} e.
Arguments OutOfFuel {T}.

Definition M (S T : Type) := S -> outcome T * S.

Definition ret {S T} (v : T) : M S T := fun s => (Ok v, s).
Definition raise {S T} (e : exn) : M S T := fun s => (Raise e, s).
Definition bind {S A B} (m : M S A) (k : A -> M S B) : M S B :=
  fun s => match m s with
           | (Ok a, s') => k a s'
           | (Raise e, s') => (Raise e, s')
           | (OutOfFuel, s') => (OutOfFuel, s')
           end.

Declare Scope py_scope.
Notation "x <- m ;; k" := (bind m (fun x => k))
  (at level 61, m at next level, right associativity) : py_scope.
Notation "m ;;; k" := (bind m (fun _ => k))
  (at level 61, right associativity) : py_scope.
Open Scope py_scope.

(** ** Python [re]: anchored backtracking match of a concatenation

    The delimiter patterns of interface.py are concatenations of [.*]
    (with [re.DOTALL]), a greedy [c{n,}] and literal characters. [re_at]
    follows the backtracking order of Python's matcher: greedy quantifiers
    try the longest repetition first and give back one character at a
    time. It returns the end position of the first successful match
    ([match.end()]); with [full = true] the pattern must also reach the
    end of the string ([fullmatch]). *)
Section Regex.
Variable A : Type.
Variable eqb : A -> A -> bool.

Inductive atom :=
| AnyStar                 (* .* with DOTALL *)
| AtLeast (c : A) (n : nat) (* c{n,} *)
| Lit (c : A).            (* c *)

Fixpoint run_len (c : A) (s : list A) : nat :=
  match s with
  | x :: s' => if eqb x c then S (run_len c s') else 0
  | [] => 0
  end.

Fixpoint first_some {B} (f : nat -> option B) (l : list nat) : option B :=
  match l with
  | [] => None
  | k :: l' => match f k with Some r => Some r | None => first_some f l' end
  end.

Fixpoint re_at (full : bool) (r : list atom) (s : list A) (pos : nat)
  : option nat :=
  match r with
  | [] => if full then match s with [] => Some pos | _ => None end
          else Some pos
  | AnyStar :: r' =>
      first_some (fun k => re_at full r' (skipn k s) (pos + k))
                 (rev (seq 0 (S (List.length s))))
  | AtLeast c n :: r' =>
      let m := run_len c s in
      if Nat.ltb m n then None
      else first_some (fun k => re_at full r' (skipn k s) (pos + k))
                      (rev (seq n (S (m - n))))
  | Lit c :: r' =>
      match s with
      | x :: s' => if eqb x c then re_at full r' s' (S pos) else None
      | [] => None
      end
  end.

(** [pattern.match(s)] and [pattern.fullmatch(s)]: [Some (match.end())]
    or [None]. *)
Definition re_match (r : list atom) (s : list A) := re_at false r s 0.
Definition re_fullmatch (r : list atom) (s : list A) := re_at true r s 0.
End Regex.
Arguments AnyStar {A}.
Arguments AtLeast {A} c n.
Arguments Lit {A} c.
Arguments re_at {A} eqb full r s pos.
Arguments re_match {A} eqb r s.
Arguments re_fullmatch {A} eqb r s.
Arguments run_len {A} eqb c s.

(** ** Bytes *)

Definition bv (b : byte) : Z := Z.of_N (Byte.to_N b).
Definition bytes (s : string) : list byte := list_byte_of_string s.

Definition b_eq : byte := x3d.    (* b'=' *)
Definition b_nl : byte := x0a.    (* b'\n' *)
Definition b_hash : byte := x23.  (* b'#' *)

(** ** CPython's UTF-8 decoder with [errors='ignore']

    Follows [utf8_decode] of CPython's [Objects/stringlib/codecs.h] and the
    error dispatch of [unicode_decode_utf8]: an invalid start byte is an
    error of length 1; an invalid continuation byte at offset [k] of a
    sequence is an error of length [k]; a sequence cut short by the end of
    the input is an error up to the end. The ['ignore'] handler drops the
    error range and decoding resumes after it. Code points are [Z]. *)
Open Scope Z_scope.

Definition is_cont (x : Z) : bool := (0x80 <=? x) && (x <=? 0xBF).

Definition cp2 (c0 c1 : Z) : Z :=
  Z.shiftl c0 6 + c1 - (Z.shiftl 0xC0 6 + 0x80).
Definition cp3 (c0 c1 c2 : Z) : Z :=
  Z.shiftl c0 12 + Z.shiftl c1 6 + c2
  - (Z.shiftl 0xE0 12 + Z.shiftl 0x80 6 + 0x80).
Definition cp4 (c0 c1 c2 c3 : Z) : Z :=
  Z.shiftl c0 18 + Z.shiftl c1 12 + Z.shiftl c2 6 + c3
  - (Z.shiftl 0xF0 18 + Z.shiftl 0x80 12 + Z.shiftl 0x80 6 + 0x80).

(** Second byte of a three-byte sequence: no overlong form after [E0],
    no surrogate after [ED]. *)
Definition second_ok3 (c0 c1 : Z) : bool :=
  is_cont c1 && (if c1 <? 0xA0 then negb (c0 =? 0xE0) else negb (c0 =? 0xED)).
(** Second byte of a four-byte sequence: no overlong form after [F0],
    nothing above U+10FFFF after [F4]. *)
Definition second_ok4 (c0 c1 : Z) : bool :=
  is_cont c1 && (if c1 <? 0x90 then negb (c0 =? 0xF0) else negb (c0 =? 0xF4)).

Fixpoint utf8_decode_ignore (s : list byte) : list Z :=
  match s with
  | [] => []
  | b0 :: s1 =>
    let c0 := bv b0 in
    if c0 <? 0x80 then c0 :: utf8_decode_ignore s1
    else if c0 <? 0xC2 then utf8_decode_ignore s1          (* invalid start byte *)
    else if c0 <? 0xE0 then
      match s1 with
      | [] => []                                           (* unexpected end of data *)
      | b1 :: s2 =>
        if is_cont (bv b1) then cp2 c0 (bv b1) :: utf8_decode_ignore s2
        else utf8_decode_ignore s1                         (* invalid continuation 1 *)
      end
    else if c0 <? 0xF0 then
      match s1 with
      | [] => []
      | b1 :: s2 =>
        if second_ok3 c0 (bv b1) then
          match s2 with
          | [] => []
          | b2 :: s3 =>
            if is_cont (bv b2) then cp3 c0 (bv b1) (bv b2) :: utf8_decode_ignore s3
            else utf8_decode_ignore s2                     (* invalid continuation 2 *)
          end
        else utf8_decode_ignore s1
      end
    else if c0 <? 0xF5 then
      match s1 with
      | [] => []
      | b1 :: s2 =>
        if second_ok4 c0 (bv b1) then
          match s2 with
          | [] => []
          | b2 :: s3 =>
            if is_cont (bv b2) then
              match s3 with
              | [] => []
              | b3 :: s4 =>
                if is_cont (bv b3)
                then cp4 c0 (bv b1) (bv b2) (bv b3) :: utf8_decode_ignore s4
                else utf8_decode_ignore s3                 (* invalid continuation 3 *)
              end
            else utf8_decode_ignore s2
          end
        else utf8_decode_ignore s1
      end
    else utf8_decode_ignore s1                             (* invalid start byte *)
  end.

(** Well-formed UTF-8 (Unicode Table 3-7), in the terms the decoder
    uses: [wf_char l] holds when [l] is one complete well-formed
    sequence, [wf_prefix l] when [l] is a proper, non-empty prefix of
    one. *)
Definition wf_char (l : list byte) : bool :=
  match l with
  | [b0] => bv b0 <? 0x80
  | [b0; b1] => (0xC2 <=? bv b0) && (bv b0 <? 0xE0) && is_cont (bv b1)
  | [b0; b1; b2] =>
    (0xE0 <=? bv b0) && (bv b0 <? 0xF0) && second_ok3 (bv b0) (bv b1) && is_cont (bv b2)
  | [b0; b1; b2; b3] =>
    (0xF0 <=? bv b0) && (bv b0 <? 0xF5) && second_ok4 (bv b0) (bv b1)
    && is_cont (bv b2) && is_cont (bv b3)
  | _ => false
  end.

Definition wf_prefix (l : list byte) : bool :=
  match l with
  | [b0] => (0xC2 <=? bv b0) && (bv b0 <? 0xF5)
  | [b0; b1] =>
    ((0xE0 <=? bv b0) && (bv b0 <? 0xF0) && second_ok3 (bv b0) (bv b1))
    || ((0xF0 <=? bv b0) && (bv b0 <? 0xF5) && second_ok4 (bv b0) (bv b1))
  | [b0; b1; b2] =>
    (0xF0 <=? bv b0) && (bv b0 <? 0xF5) && second_ok4 (bv b0) (bv b1) && is_cont (bv b2)
  | _ => false
  end.

(** [e] is an invalid sequence when followed by [w]: a byte that starts no
    sequence (0x80-0xC1, 0xF5-0xFF), or a proper prefix of a well-formed
    sequence that the next byte (if any) neither continues nor completes
    (a truncated sequence, a bad continuation byte, an overlong or
    surrogate form). *)
Definition utf8_error (e w : list byte) : bool :=
  match e with
  | [b0] => ((0x80 <=? bv b0) && (bv b0 <? 0xC2)) || (0xF5 <=? bv b0)
  | _ => false
  end
  || (wf_prefix e &&
      match w with
      | [] => true
      | b :: _ => negb (wf_prefix (e ++ [b])) && negb (wf_char (e ++ [b]))
      end).

Close Scope Z_scope.

(** ** The pyserial device ([self._dev])

    [rx_buffer] holds bytes already received but unread; [line] is what the
    device will still send, as a sequence of arriving bytes and of
    silences long enough for the port's read timeout to expire. [dev_log]
    records the calls made on the device, oldest first. *)
Inductive event := Arrive (b : byte) | Silence.

Inductive dev_call := DResetInputBuffer | DReadUntil (expected : byte).

Record serial_dev := {
  rx_buffer : list byte;
  line : list event;
  dev_log : list dev_call
}.

Definition log_call (c : dev_call) (d : serial_dev) : serial_dev :=
  {| rx_buffer := rx_buffer d; line := line d; dev_log := dev_log d ++ [c] |}.

(** pyserial [Serial.read_until(expected)] for a one-byte terminator:
    [c = self.read(1)]; if [c] is empty (the timeout expired) return the
    line read so far; otherwise append it and stop once the line ends with
    [expected]. The end of [line] means nothing more ever arrives, so the
    read times out. *)
Fixpoint take_until (expected : byte) (evs : list event)
  : list byte * list event :=
  match evs with
  | [] => ([], [])
  | Silence :: evs' => ([], evs')
  | Arrive b :: evs' =>
    if Byte.eqb b expected then ([b], evs')
    else let (r, rest) := take_until expected evs' in (b :: r, rest)
  end.

Definition read_until (expected : byte) : M serial_dev (list byte) :=
  fun d =>
    let (r, rest) := take_until expected (map Arrive (rx_buffer d) ++ line d) in
    (Ok r, {| rx_buffer := []; line := rest;
              dev_log := dev_log d ++ [DReadUntil expected] |}).

(** [Serial.reset_input_buffer()]: drop received but unread bytes. *)
Definition reset_input_buffer : M serial_dev unit :=
  fun d => (Ok tt, {| rx_buffer := []; line := line d;
                      dev_log := dev_log d ++ [DResetInputBuffer] |}).

(** Equality of [bytes] objects. *)
Fixpoint bytes_eqb (a b : list byte) : bool :=
  match a, b with
  | [], [] => true
  | x :: a', y :: b' => Byte.eqb x y && bytes_eqb a' b'
  | _, _ => false
  end.

(** ** [SerialCommsPlatform] *)

(** [start_pat = re.compile(b'.*={4,}\n', re.DOTALL)] *)
Definition serial_start_pat : list (atom byte) :=
  [AnyStar; AtLeast b_eq 4; Lit b_nl].

(** [output[-1] != b'#'[0]] on a non-empty bytearray. *)
Definition ends_with_hash (output : list byte) : bool :=
  match output with
  | [] => false
  | _ => Byte.eqb (last output x00) b_hash
  end.

(** [while len(output) == 0 or output[-1] != b'#'[0]:
        data = self._dev.read_until(b'#'); output.extend(data)] *)
Fixpoint stream_loop (fuel : nat) (output : list byte) : M serial_dev (list byte) :=
  match fuel with
  | O => fun d => (OutOfFuel, d)
  | S f =>
    if ends_with_hash output then ret output
    else data <- read_until b_hash ;; stream_loop f (output ++ data)
  end.

(** [StLink.flash]: [subprocess.check_call(["st-flash", ...])] with the
    exit status [rc] of st-flash; a non-zero status raises
    [CalledProcessError]. *)
Definition stlink_flash (rc : Z) : M serial_dev unit :=
  if Z.eqb rc 0 then ret tt else raise (CalledProcessError rc).

(** [SerialCommsPlatform.run]; [flash] is the subclass's [self.flash]. *)
Definition serial_run (flash : M serial_dev unit) (fuel : nat)
  : M serial_dev (list Z) :=
  flash ;;;
  reset_input_buffer ;;;
  first <- read_until b_eq ;;
  if negb (bytes_eqb first [b_eq])
  then raise (Exception "Timout waiting for start")
  else
  start <- read_until b_nl ;;
  match re_fullmatch Byte.eqb serial_start_pat start with
  | None => raise (Exception "Start does not match")
  | Some _ =>
    output <- stream_loop fuel [] ;;
    ret (utf8_decode_ignore (removelast output))
  end.

(** A device whose receive buffer holds [buf] and that will then send [evs]. *)
Definition dev0 (buf : list byte) (evs : list event) : serial_dev :=
  {| rx_buffer := buf; line := evs; dev_log := [] |}.

(** A gap-free transmission of the bytes of [s]. *)
Definition sent (s : list byte) : list event := map Arrive s.

(** The bytes of a transmission, without its pauses. *)
Fixpoint arrived (evs : list event) : list byte :=
  match evs with
  | [] => []
  | Arrive b :: evs' => b :: arrived evs'
  | Silence :: evs' => arrived evs'
  end.

(** The number of read timeouts a transmission causes. *)
Fixpoint silences (evs : list event) : nat :=
  match evs with
  | [] => 0
  | Arrive _ :: evs' => silences evs'
  | Silence :: evs' => S (silences evs')
  end.

(** ** [ChipWhisperer]

    The scope target returns decoded text: a Python [str] is a list of
    [ascii] characters. [polls] are the results of the successive
    [self.target.read()] calls made after [self.target.flush()]; once they
    are used up every further poll returns [''] (the read never blocks and
    has no timeout). [prog_log] records the calls made on the
    [STM32FProgrammer], oldest first. *)
Record cw_state := {
  polls : list (list ascii);
  prog_log : list prog_call
}.

Definition target_read : M cw_state (list ascii) :=
  fun st => match polls st with
            | [] => (Ok [], st)
            | p :: ps => (Ok p, {| polls := ps; prog_log := prog_log st |})
            end.

(** One programmer call; [ok c] tells whether call [c] returns normally
    or raises. *)
Definition prog_step (ok : prog_call -> bool) (c : prog_call) : M cw_state unit :=
  fun st =>
    let st' := {| polls := polls st; prog_log := prog_log st ++ [c] |} in
    if ok c then (Ok tt, st') else (Raise (ProgrammerError c), st').

(** [ChipWhisperer.flash]: open, find, erase, program, close, with no
    exception handling around the calls. *)
Definition cw_flash (ok : prog_call -> bool) : M cw_state unit :=
  prog_step ok POpen ;;;
  prog_step ok PFind ;;;
  prog_step ok PErase ;;;
  prog_step ok PProgram ;;;
  prog_step ok PClose.

Definition c_eq : ascii := "="%char.
Definition c_nl : ascii := "010"%char.
Definition c_hash : ascii := "#"%char.

(** [start_pat = re.compile('.*={4,}\n', re.DOTALL)] *)
Definition cw_start_pat : list (atom ascii) := [AnyStar; AtLeast c_eq 4; Lit c_nl].
(** [end_pat = re.compile('.*#\n', re.DOTALL)] *)
Definition cw_end_pat : list (atom ascii) := [AnyStar; Lit c_hash; Lit c_nl].

(** [while '=' not in data: data += self.target.read()] *)
Fixpoint wait_for_eq (fuel : nat) (data : list ascii) : M cw_state (list ascii) :=
  match fuel with
  | O => fun st => (OutOfFuel, st)
  | S f =>
    if existsb (Ascii.eqb c_eq) data then ret data
    else chunk <- target_read ;; wait_for_eq f (data ++ chunk)
  end.

(** [match = None
     while match is None:
         data += self.target.read(); match = pat.match(data)]
    returning [data] and [match.end()]. *)
Fixpoint poll_until_match (pat : list (atom ascii)) (fuel : nat) (data : list ascii)
  : M cw_state (list ascii * nat) :=
  match fuel with
  | O => fun st => (OutOfFuel, st)
  | S f =>
    chunk <- target_read ;;
    let data' := data ++ chunk in
    match re_match Ascii.eqb pat data' with
    | Some e => ret (data', e)
    | None => poll_until_match pat f data'
    end
  end.

(** [ChipWhisperer.run]. [self.target.flush()] and [self.reset_target()]
    have no effect on the model beyond fixing where [polls] start. *)
Definition cw_run (ok : prog_call -> bool) (fuel : nat) : M cw_state (list ascii) :=
  cw_flash ok ;;;
  data <- wait_for_eq fuel [] ;;
  m <- poll_until_match cw_start_pat fuel data ;;
  (* data = data[:match.end()] *)
  let data := firstn (snd m) (fst m) in
  m' <- poll_until_match cw_end_pat fuel data ;;
  (* return data[:match.end() - 2] *)
  ret (firstn (snd m' - 2) (fst m')).

Definition cw0 (ps : list string) : cw_state :=
  {| polls := map list_ascii_of_string ps; prog_log := [] |}.

Definition all_ok : prog_call -> bool := fun _ => true.

(** The one-character string ["\n"]. *)
Definition s_nl : string := String c_nl EmptyString.

(** The start line of the byte-oriented framing: the [b'='] awaited
    first, then [x], then four [b'='] and the newline. *)
Definition start_line (x : list byte) : list byte :=
  [b_eq] ++ x ++ [b_eq; b_eq; b_eq; b_eq; b_nl].

(** ** [Qemu]

    Processes are named by the number [Popen] gives them in spawn order.
    [proc_log] records the process operations made by the platform, oldest
    first. [mupq.Platform]'s own [flash] and [__exit__], which [Qemu]
    calls through [super()], are parameters of the functions below. *)
Inductive proc_op :=
| PSpawn (pid : nat) (args : list string)   (* subprocess.Popen(args, ...) *)
| PCloseStdout (pid : nat)                  (* proc.stdout.close() *)
| PTerminate (pid : nat)                    (* proc.terminate() *)
| PKill (pid : nat).                        (* proc.kill() *)

Record qemu := {
  machine : string;
  wrapper : option nat;     (* self.wrapper: None or the Wrapper of a process *)
  next_pid : nat;
  proc_log : list proc_op
}.

(** [Qemu.__init__(machine)]: no process yet. *)
Definition qemu_init (m : string) : qemu :=
  {| machine := m; wrapper := None; next_pid := 0; proc_log := [] |}.

Definition get_wrapper : M qemu (option nat) := fun q => (Ok (wrapper q), q).

Definition set_wrapper (w : option nat) : M qemu unit :=
  fun q => (Ok tt, {| machine := machine q; wrapper := w; next_pid := next_pid q;
                      proc_log := proc_log q |}).

(** [Qemu.Wrapper.terminate()]: close the process's stdout, then
    [terminate()] and [kill()]. *)
Definition wrapper_terminate (pid : nat) : M qemu unit :=
  fun q => (Ok tt, {| machine := machine q; wrapper := wrapper q; next_pid := next_pid q;
                      proc_log := proc_log q ++ [PCloseStdout pid; PTerminate pid; PKill pid] |}).

Definition popen (args : list string) : M qemu nat :=
  fun q => (Ok (next_pid q),
            {| machine := machine q; wrapper := wrapper q; next_pid := S (next_pid q);
               proc_log := proc_log q ++ [PSpawn (next_pid q) args] |}).

(** [if self.wrapper is not None: self.wrapper.terminate(); self.wrapper = None] *)
Definition drop_wrapper : M qemu unit :=
  w <- get_wrapper ;;
  match w with
  | Some pid => wrapper_terminate pid ;;; set_wrapper None
  | None => ret tt
  end.

Definition qemu_args (m binary_path : string) : list string :=
  ["qemu-system-arm"; "-cpu"; "cortex-m4"; "-M"; m; "-nographic"; "-kernel";
   binary_path]%string.

(** [Qemu.flash]; [parent_flash] is [super().flash(binary_path)]. *)
Definition qemu_flash (parent_flash : M qemu unit) (binary_path : string) : M qemu unit :=
  parent_flash ;;;
  drop_wrapper ;;;
  m <- (fun q => (Ok (machine q), q)) ;;
  pid <- popen (qemu_args m binary_path) ;;
  set_wrapper (Some pid).

(** [Qemu.__exit__]; [parent_exit] is [super().__exit__(...)], whose
    result is returned. *)
Definition qemu_exit {R} (parent_exit : M qemu R) : M qemu R :=
  drop_wrapper ;;;
  parent_exit.

(** [Qemu.device()] *)
Definition qemu_device : M qemu nat :=
  w <- get_wrapper ;;
  match w with
  | None => raise (Exception "No process started yet")
  | Some pid => ret pid
  end.

(** *** [Qemu.Wrapper.read(n)]

    [self.proc.stdout] is the [io.BufferedReader] that [Popen] puts over
    the pipe ([stdout=PIPE], default buffering). [select] looks at the
    pipe's file descriptor only. The pipe is described by what it yields
    to the reader: [PData bs] is the result of one [os.read] on it (at
    most the reader's buffer size), [PGap] a pause in the process's output
    longer than [self.timeout]; the end of the list is end of file. *)
Inductive pipe_item := PData (bs : list byte) | PGap.

Record reader := {
  rbuf : list byte;         (* bytes read from the pipe, not yet returned *)
  pipe : list pipe_item
}.

(** [BufferedReader.read(n)] for [n] below the buffer size: serve from the
    buffer; if it holds fewer than [n] bytes, take them and refill with
    raw reads (blocking, so pauses are waited through) until [n] bytes
    are collected or end of file; the unused part of a raw read stays
    buffered. *)
Fixpoint fill_read (n : nat) (p : list pipe_item) : list byte * reader :=
  match p with
  | [] => ([], {| rbuf := []; pipe := [] |})
  | PGap :: p' => fill_read n p'
  | PData bs :: p' =>
    if Nat.leb n (List.length bs)
    then (firstn n bs, {| rbuf := skipn n bs; pipe := p' |})
    else let (r, rd) := fill_read (n - List.length bs) p' in (bs ++ r, rd)
  end.

Definition buffered_read (n : nat) (rd : reader) : list byte * reader :=
  if Nat.leb n (List.length (rbuf rd))
  then (firstn n (rbuf rd), {| rbuf := skipn n (rbuf rd); pipe := pipe rd |})
  else let (r, rd') := fill_read (n - List.length (rbuf rd)) (pipe rd) in
       (rbuf rd ++ r, rd').

(** [r, w, x = select.select([self.proc.stdout], [], [], self.timeout)]:
    the descriptor is readable when data or end of file is pending on the
    pipe; a pause longer than the timeout passes with nothing readable. *)
Definition wrapper_read (n : nat) : M reader (list byte) :=
  fun rd =>
    match pipe rd with
    | PGap :: p' => (Raise (Exception "timeout"), {| rbuf := rbuf rd; pipe := p' |})
    | _ => let (r, rd') := buffered_read n rd in (Ok r, rd')
    end.

(** The bytes a reader still holds or will get from its pipe. *)
Fixpoint pipe_data (p : list pipe_item) : list byte :=
  match p with
  | [] => []
  | PData bs :: p' => bs ++ pipe_data p'
  | PGap :: p' => pipe_data p'
  end.

(** A use of a [Qemu] platform object: [flash(binary_path)] calls and
    leaving its [with] block. *)
Inductive qemu_call := QFlash (binary_path : string) | QExit.

Fixpoint qemu_session (parent_flash parent_exit : M qemu unit) (calls : list qemu_call)
  : M qemu unit :=
  match calls with
  | [] => ret tt
  | QFlash path :: cs =>
    qemu_flash parent_flash path ;;; qemu_session parent_flash parent_exit cs
  | QExit :: cs => qemu_exit parent_exit ;;; qemu_session parent_flash parent_exit cs
  end.

(** ** [parse_arguments], [get_platform] and [M4Settings] *)

(** The attributes of the namespace returned by [parse_arguments] that
    [get_platform] reads; [a_uart] is [None] when [-u] is not given. *)
Record args := {
  a_platform : string;
  a_opt : string;
  a_lto : bool;
  a_aio : bool;
  a_uart : option string
}.

(** The [choices] of [--platform] and [--opt]: argparse accepts no other
    value for them. *)
Definition platform_choices : list string :=
  ["stm32f4discovery"; "nucleo-l476rg"; "cw308t-stm32f3"]%string.
Definition opt_choices : list string := ["speed"; "size"; "debug"]%string.

Definition in_choices (choices : list string) (v : string) : bool :=
  existsb (String.eqb v) choices.

(** The exceptions raised while [get_platform] runs: its own and
    [M4Settings]'s, and those of the platform constructors it calls.
    [ScopeError] stands for whatever [cw.scope()] raises when it finds no
    scope. *)
Inductive setup_error :=
| ValueError (msg : string)
| NotImplementedError (msg : string)
| SerialException (port : string)   (* serial.Serial(port, ...) cannot open the port *)
| NameError (name : string)         (* chipwhisperer failed to import: cw undefined *)
| ScopeError.

Record m4settings := {
  binary_type : string;
  makeflags : list string
}.

(** [optflags = {"speed": [], "size": ["OPT_SIZE=1"], "debug": ["DEBUG=1"]}],
    looked up by key. *)
Definition optflags (opt : string) : option (list string) :=
  if String.eqb opt "speed" then Some []
  else if String.eqb opt "size" then Some ["OPT_SIZE=1"%string]
  else if String.eqb opt "debug" then Some ["DEBUG=1"%string]
  else None.

(** [M4Settings.__init__(platform, opt, lto, aio, binary_type)] *)
Definition m4settings_init (platform opt : string) (lto aio : bool)
           (binary_type : string) : setup_error + m4settings :=
  match optflags opt with
  | None => inl (ValueError "Optimization flag should be in ['speed', 'size', 'debug']")
  | Some fl =>
    inr {| binary_type := binary_type;
           makeflags := [String.append "PLATFORM=" platform] ++ fl
                        ++ (if lto then ["LTO=1"%string] else [])
                        ++ (if aio then ["AIO=1"%string] else []) |}
  end.

(** The platform objects [get_platform] builds: [StLink(args.uart)], that
    is [SerialCommsPlatform(tty, baud=38400, timeout=60)], or
    [ChipWhisperer()]. *)
Inductive platform_obj :=
| StLinkObj (tty : option string) (baud : Z) (timeout : Z)
| ChipWhispererObj.

(** The host the objects are built on: which serial ports can be opened,
    whether [import chipwhisperer as cw] succeeded ([HAS_CW]) and whether
    [cw.scope()] finds a scope. *)
Record host := {
  port_opens : string -> bool;
  cw_imported : bool;
  scope_attached : bool
}.

(** [serial.Serial(tty, baud, timeout=timeout)]: pyserial opens the port
    at once when [tty] is not [None], and leaves it closed otherwise. *)
Definition serial_open (h : host) (tty : option string) : setup_error + unit :=
  match tty with
  | None => inr tt
  | Some port => if port_opens h port then inr tt else inl (SerialException port)
  end.

(** [StLink(tty)], i.e. [SerialCommsPlatform.__init__(tty, 38400, 60)]. *)
Definition stlink_init (h : host) (tty : option string) : setup_error + platform_obj :=
  match serial_open h tty with
  | inl e => inl e
  | inr _ => inr (StLinkObj tty 38400 60)
  end.

(** [ChipWhisperer()]: [cw.scope()], [cw.target(self.scope)],
    [self.scope.default_setup()]. *)
Definition chipwhisperer_init (h : host) : setup_error + platform_obj :=
  if negb (cw_imported h) then inl (NameError "cw")
  else if negb (scope_attached h) then inl ScopeError
  else inr ChipWhispererObj.

(** The first part of [get_platform(args)]: the platform object and
    [bin_type], or [NotImplementedError]. *)
Definition make_platform (h : host) (a : args) : setup_error + (platform_obj * string) :=
  let with_bin obj bin_type :=
    match obj with
    | inl e => inl e
    | inr o => inr (o, bin_type)
    end in
  if in_choices ["stm32f4discovery"; "nucleo-l476rg"]%string (a_platform a)
  then with_bin (stlink_init h (a_uart a)) "bin"%string
  else if String.eqb (a_platform a) "cw308t-stm32f3"
  then with_bin (chipwhisperer_init h) "hex"%string
  else inl (NotImplementedError "Unsupported Platform").

(** [get_platform(args)]: the platform object, then the settings. *)
Definition get_platform (h : host) (a : args) : setup_error + (platform_obj * m4settings) :=
  match make_platform h a with
  | inl e => inl e
  | inr (platform, bin_type) =>
    match m4settings_init (a_platform a) (a_opt a) (a_lto a) (a_aio a) bin_type with
    | inl e => inl e
    | inr settings => inr (platform, settings)
    end
  end.

(** ** Properties of pyserial's [read_until] *)

Lemma byte_eqb_neq (a b : byte) : a <> b -> Byte.eqb a b = false.
Proof.
  intros H; destruct (Byte.eqb a b) eqn:E; [|reflexivity].
  apply Byte.byte_dec_bl in E; contradiction.
Qed.

Lemma byte_eqb_refl (a : byte) : Byte.eqb a a = true.
Proof. apply Byte.byte_dec_lb; reflexivity. Qed.

Lemma take_until_found (d : byte) (xs : list byte) (rest : list event) :
  ~ In d xs ->
  take_until d (map Arrive (xs ++ [d]) ++ rest) = (xs ++ [d], rest).
Proof.
  induction xs as [|b xs IH]; intros Hn; cbn.
  - rewrite byte_eqb_refl; reflexivity.
  - rewrite byte_eqb_neq by (intros ->; apply Hn; left; reflexivity).
    rewrite IH by (intros H; apply Hn; right; exact H); reflexivity.
Qed.

Lemma take_until_timeout (d : byte) (xs : list byte) (rest : list event) :
  ~ In d xs ->
  (rest = [] \/ exists rest', rest = Silence :: rest') ->
  fst (take_until d (map Arrive xs ++ rest)) = xs.
Proof.
  intros Hn Hr; induction xs as [|b xs IH]; cbn.
  - destruct Hr as [-> | [rest' ->]]; reflexivity.
  - rewrite byte_eqb_neq by (intros ->; apply Hn; left; reflexivity).
    specialize (IH (fun H => Hn (or_intror H))).
    destruct (take_until d (map Arrive xs ++ rest)); cbn in *; subst; reflexivity.
Qed.

(** A chunk returned by [read_until(d)] holds [d] at most once, as its last
    byte. *)
Lemma take_until_shape (d : byte) (evs : list event) :
  ~ In d (fst (take_until d evs)) \/
  exists zs, fst (take_until d evs) = zs ++ [d] /\ ~ In d zs.
Proof.
  induction evs as [|[b|] evs IH]; cbn; [left; tauto| |left; tauto].
  destruct (Byte.eqb b d) eqn:E.
  - apply Byte.byte_dec_bl in E; subst. right; exists []; cbn; tauto.
  - apply Byte.eqb_false in E.
    destruct (take_until d evs) as [r rest]; cbn in *.
    destruct IH as [IH | [zs [-> IH]]].
    + left; intros [H|H]; [congruence | tauto].
    + right; exists (b :: zs); split; [reflexivity|].
      intros [H|H]; [congruence | tauto].
Qed.

Lemma take_until_no_hash (d : byte) (evs : list event) :
  (forall b, In (Arrive b) evs -> b <> d) ->
  ~ In d (fst (take_until d evs)) /\
  (forall b, In (Arrive b) (snd (take_until d evs)) -> b <> d).
Proof.
  induction evs as [|[b|] evs IH]; intros H; cbn.
  - tauto.
  - rewrite byte_eqb_neq by (apply H; left; reflexivity).
    destruct IH as [IH1 IH2]; [intros b' Hb; apply H; right; exact Hb|].
    destruct (take_until d evs) as [r rest]; cbn in *.
    split; [|exact IH2].
    intros [E|E]; [apply (H b (or_introl eq_refl)); congruence | tauto].
  - split; [tauto|]. intros b Hb; apply H; right; exact Hb.
Qed.

(** ** The streaming loop of [SerialCommsPlatform.run] *)

Lemma ends_with_hash_app (p : list byte) : ends_with_hash (p ++ [b_hash]) = true.
Proof.
  unfold ends_with_hash; destruct (p ++ [b_hash]) eqn:E.
  - apply app_eq_nil in E; destruct E as [_ E]; discriminate.
  - rewrite <- E, last_last; reflexivity.
Qed.

Lemma ends_with_hash_true (o : list byte) :
  ends_with_hash o = true -> exists ys, o = ys ++ [b_hash].
Proof.
  unfold ends_with_hash; destruct o as [|b o]; [discriminate|].
  intros E; apply Byte.byte_dec_bl in E.
  exists (removelast (b :: o)); rewrite <- E.
  apply app_removelast_last; discriminate.
Qed.

(** Loop invariant: no [b'#'] yet, or exactly one, in last position. *)
Definition hash_inv (output : list byte) : Prop :=
  ~ In b_hash output \/ exists ys, output = ys ++ [b_hash] /\ ~ In b_hash ys.

Lemma stream_loop_shape (fuel : nat) : forall output d o d',
  stream_loop fuel output d = (Ok o, d') -> hash_inv output ->
  exists ys, o = ys ++ [b_hash] /\ ~ In b_hash ys.
Proof.
  induction fuel as [|f IH]; intros output d o d' Hrun Hinv; cbn in Hrun;
    [discriminate|].
  destruct (ends_with_hash output) eqn:Ew.
  - unfold ret in Hrun; injection Hrun as <- _.
    destruct Hinv as [Hn | Hs]; [|exact Hs].
    destruct (ends_with_hash_true _ Ew) as [ys ->].
    exfalso; apply Hn, in_or_app; right; left; reflexivity.
  - unfold bind, read_until in Hrun.
    pose proof (take_until_shape b_hash (map Arrive (rx_buffer d) ++ line d)) as Hc.
    destruct (take_until b_hash _) as [r rest]; cbn in Hc.
    apply IH in Hrun; [exact Hrun|].
    destruct Hinv as [Hn | [ys [-> _]]];
      [|rewrite ends_with_hash_app in Ew; discriminate].
    destruct Hc as [Hr | [zs [-> Hz]]].
    + left; intros H; apply in_app_or in H; tauto.
    + right; exists (output ++ zs); rewrite app_assoc; split; [reflexivity|].
      intros H; apply in_app_or in H; tauto.
Qed.

Lemma stream_loop_no_hash (fuel : nat) : forall output d,
  ~ In b_hash output ->
  (forall b, In (Arrive b) (map Arrive (rx_buffer d) ++ line d) -> b <> b_hash) ->
  fst (stream_loop fuel output d) = OutOfFuel.
Proof.
  induction fuel as [|f IH]; intros output d Hn Hl; [reflexivity|]; cbn.
  destruct (ends_with_hash output) eqn:Ew.
  - destruct (ends_with_hash_true _ Ew) as [ys ->].
    exfalso; apply Hn, in_or_app; right; left; reflexivity.
  - unfold bind, read_until.
    destruct (take_until_no_hash b_hash _ Hl) as [H1 H2].
    destruct (take_until b_hash _) as [r rest]; cbn in *.
    apply IH; cbn.
    + intros H; apply in_app_or in H; tauto.
    + exact H2.
Qed.

(** After [k] read timeouts, the payload [p] and its [b'#'] arrive. *)
Lemma stream_loop_found (k : nat) : forall p r d f,
  ~ In b_hash p ->
  rx_buffer d = [] ->
  line d = repeat Silence k ++ map Arrive (p ++ [b_hash]) ++ r ->
  exists d', stream_loop (k + S (S f)) [] d = (Ok (p ++ [b_hash]), d') /\
             line d' = r.
Proof.
  induction k as [|k IH]; intros p r d f Hp Hb Hl.
  - cbn [Nat.add stream_loop ends_with_hash].
    unfold bind, read_until; rewrite Hb, Hl; cbn [map app repeat].
    rewrite take_until_found by exact Hp; cbn [app stream_loop].
    rewrite ends_with_hash_app.
    eexists; split; reflexivity.
  - cbn [Nat.add stream_loop ends_with_hash].
    unfold bind at 1, read_until; rewrite Hb, Hl; cbn.
    apply IH; [exact Hp | reflexivity | reflexivity].
Qed.

(** ** The UTF-8 decoder *)

Lemma cp2_eq (c0 c1 : Z) : cp2 c0 c1 = (c0 * 64 + c1 - 12416)%Z.
Proof. unfold cp2; rewrite !Z.shiftl_mul_pow2 by lia; cbn; lia. Qed.

Lemma cp3_eq (c0 c1 c2 : Z) : cp3 c0 c1 c2 = (c0 * 4096 + c1 * 64 + c2 - 925824)%Z.
Proof. unfold cp3; rewrite !Z.shiftl_mul_pow2 by lia; cbn; lia. Qed.

Lemma cp4_eq (c0 c1 c2 c3 : Z) :
  cp4 c0 c1 c2 c3 = (c0 * 262144 + c1 * 4096 + c2 * 64 + c3 - 63447168)%Z.
Proof. unfold cp4; rewrite !Z.shiftl_mul_pow2 by lia; cbn; lia. Qed.

Ltac bool_facts :=
  repeat match goal with
  | H : (_ && _)%bool = true |- _ => apply andb_true_iff in H; destruct H
  | H : (_ <? _)%Z = true |- _ => apply Z.ltb_lt in H
  | H : (_ <? _)%Z = false |- _ => apply Z.ltb_ge in H
  | H : (_ <=? _)%Z = true |- _ => apply Z.leb_le in H
  | H : negb _ = true |- _ => apply negb_true_iff in H
  | H : (_ =? _)%Z = false |- _ => apply Z.eqb_neq in H
  end.

(** Every code point the decoder emits is either a byte of its input
    (ASCII) or at least U+0080. *)
Lemma decode_cp_origin (n : nat) : forall s c,
  (List.length s <= n)%nat -> In c (utf8_decode_ignore s) ->
  (exists b, In b s /\ bv b = c) \/ (0x80 <= c)%Z.
Proof.
  induction n as [|n IH]; intros s c Hl Hin;
    (destruct s as [|b0 s1]; [destruct Hin|]); [cbn in Hl; lia|].
  cbn [utf8_decode_ignore] in Hin; unfold second_ok3, second_ok4, is_cont in Hin.
  repeat match goal with
  | H : In _ [] |- _ => destruct H
  | H : context [if ?t then _ else _] |- _ => destruct t eqn:?
  | H : context [match ?l with [] => _ | _ :: _ => _ end] |- _ => destruct l
  end;
  bool_facts;
  repeat match goal with H : In _ (_ :: _) |- _ => destruct H as [<- | Hin] end;
  first
    [ left; exists b0; split; [left; reflexivity | reflexivity]
    | right; rewrite ?cp2_eq, ?cp3_eq, ?cp4_eq; lia
    | match goal with
      | H : In ?c (utf8_decode_ignore ?s) |- _ =>
        destruct (IH s c ltac:(cbn in Hl |- *; lia) H) as [[b' [Hb Hbv]] | Hge];
        [left; exists b'; split; [cbn in Hb |- *; tauto | exact Hbv] | right; exact Hge]
      end ].
Qed.

Lemma bv_hash (b : byte) : bv b = 35%Z -> b = b_hash.
Proof.
  unfold bv; intros H.
  assert (E : Byte.to_N b = 35%N) by lia.
  pose proof (Byte.of_to_N b) as Hb; rewrite E in Hb; cbn in Hb.
  injection Hb as <-; reflexivity.
Qed.

Lemma decode_no_hash (s : list byte) :
  ~ In b_hash s -> ~ In 35%Z (utf8_decode_ignore s).
Proof.
  intros Hs Hin.
  destruct (decode_cp_origin (List.length s) s 35 (le_n _) Hin) as [[b [Hb Hv]] | H];
    [apply bv_hash in Hv; subst; contradiction | lia].
Qed.

Ltac zfacts :=
  repeat match goal with
  | H : (_ && _) = true |- _ => apply andb_true_iff in H; destruct H
  | H : (_ || _) = true |- _ => apply orb_true_iff in H; destruct H
  | H : (_ && _) = false |- _ => apply andb_false_iff in H; destruct H
  | H : (_ || _) = false |- _ => apply orb_false_iff in H; destruct H
  | H : negb _ = true |- _ => apply negb_true_iff in H
  | H : negb _ = false |- _ => apply negb_false_iff in H
  | H : (_ <? _)%Z = true |- _ => apply Z.ltb_lt in H
  | H : (_ <? _)%Z = false |- _ => apply Z.ltb_ge in H
  | H : (_ <=? _)%Z = true |- _ => apply Z.leb_le in H
  | H : (_ <=? _)%Z = false |- _ => apply Z.leb_gt in H
  | H : (_ =? _)%Z = true |- _ => apply Z.eqb_eq in H
  | H : (_ =? _)%Z = false |- _ => apply Z.eqb_neq in H
  | H : (if ?c then _ else _) = _ |- _ =>
    let E := fresh "E" in destruct c eqn:E
  end.

(** Rewrite every comparison of the goal that the hypotheses decide. *)
Ltac decide_cmp :=
  repeat (match goal with
          | |- context [(?a <? ?b)%Z] =>
            (rewrite (proj2 (Z.ltb_lt a b)) by lia)
            || (rewrite (proj2 (Z.ltb_ge a b)) by lia)
          | |- context [(?a <=? ?b)%Z] =>
            (rewrite (proj2 (Z.leb_le a b)) by lia)
            || (rewrite (proj2 (Z.leb_gt a b)) by lia)
          | |- context [(?a =? ?b)%Z] =>
            (rewrite (proj2 (Z.eqb_eq a b)) by lia)
            || (rewrite (proj2 (Z.eqb_neq a b)) by lia)
          end; cbn [andb orb negb]; rewrite ?andb_false_r, ?andb_true_r).

(** A well-formed sequence decodes on its own: what follows it does not
    change its code point. *)
Lemma decode_wf_char (ch z : list byte) :
  wf_char ch = true -> utf8_decode_ignore (ch ++ z) = utf8_decode_ignore ch ++ utf8_decode_ignore z.
Proof.
  destruct ch as [|b0 [|b1 [|b2 [|b3 [|b4 ch]]]]]; cbn [wf_char]; try discriminate;
    unfold second_ok3, second_ok4, is_cont; intros Hwf; zfacts;
    cbn [app utf8_decode_ignore]; unfold second_ok3, second_ok4, is_cont;
    decide_cmp; try (exfalso; lia); reflexivity.
Qed.

Lemma decode_wf_concat (chunks : list (list byte)) (z : list byte) :
  Forall (fun ch => wf_char ch = true) chunks ->
  utf8_decode_ignore (List.concat chunks ++ z)
  = utf8_decode_ignore (List.concat chunks) ++ utf8_decode_ignore z.
Proof.
  intros H; induction H as [|ch chunks Hch _ IH]; cbn [List.concat]; [reflexivity|].
  rewrite <- app_assoc, (decode_wf_char ch _ Hch), (decode_wf_char ch (List.concat chunks) Hch).
  rewrite IH, app_assoc; reflexivity.
Qed.

(** An invalid sequence is dropped: decoding resumes right after it. *)
Lemma decode_error (e w : list byte) :
  utf8_error e w = true -> utf8_decode_ignore (e ++ w) = utf8_decode_ignore w.
Proof.
  destruct e as [|b0 [|b1 [|b2 [|b3 e]]]]; unfold utf8_error; cbn [wf_prefix];
    rewrite ?andb_false_l, ?orb_false_l; try discriminate;
    (destruct w as [|b w]; cbn [app wf_prefix wf_char];
     unfold second_ok3, second_ok4, is_cont; intros Hwf; zfacts;
     cbn [app utf8_decode_ignore]; unfold second_ok3, second_ok4, is_cont;
     decide_cmp; try (exfalso; lia);
     first [ reflexivity
           | repeat match goal with |- context [if ?c then _ else _] => destruct c end;
             reflexivity ]).
Qed.

(** ** The start pattern *)

Lemma first_some_in {B} (f : nat -> option B) (l : list nat) (k : nat) :
  In k l -> f k <> None -> first_some f l <> None.
Proof.
  induction l as [|k' l IH]; cbn; [tauto|].
  intros [<- | Hk] Hf; destruct (f k') eqn:E; try discriminate; auto.
Qed.

Lemma skipn_length_app {X} (x y : list X) : skipn (List.length x) (x ++ y) = y.
Proof. induction x; cbn; auto. Qed.

(** [start_pat.fullmatch] accepts every candidate ending in four [b'=']
    and the newline. *)
Lemma serial_start_pat_accepts (x : list byte) :
  re_fullmatch Byte.eqb serial_start_pat (x ++ [b_eq; b_eq; b_eq; b_eq; b_nl]) <> None.
Proof.
  unfold re_fullmatch, serial_start_pat; cbn [re_at].
  apply (first_some_in _ _ (List.length x)).
  - rewrite <- in_rev, in_seq, length_app; cbn; lia.
  - rewrite skipn_length_app; cbn; discriminate.
Qed.

(** ** Running [SerialCommsPlatform.run] *)

Lemma bind_ok {S A B} (m : M S A) (k : A -> M S B) s a s' :
  m s = (Ok a, s') -> bind m k s = k a s'.
Proof. intros H; unfold bind; rewrite H; reflexivity. Qed.

Lemma bind_raise {S A B} (m : M S A) (k : A -> M S B) s e s' :
  m s = (Raise e, s') -> bind m k s = (Raise e, s').
Proof. intros H; unfold bind; rewrite H; reflexivity. Qed.

Lemma bind_oof {S A B} (m : M S A) (k : A -> M S B) s s' :
  m s = (OutOfFuel, s') -> bind m k s = (OutOfFuel, s').
Proof. intros H; unfold bind; rewrite H; reflexivity. Qed.

(** The device right after [reset_input_buffer()] on a device that will
    send [evs]. *)
Definition dev_after_reset (evs : list event) : serial_dev :=
  {| rx_buffer := []; line := evs; dev_log := [DResetInputBuffer] |}.

Lemma serial_run_prefix (buf : list byte) (evs : list event) (fuel : nat) :
  serial_run (stlink_flash 0) fuel (dev0 buf evs) =
  (first <- read_until b_eq ;;
   if negb (bytes_eqb first [b_eq])
   then raise (Exception "Timout waiting for start")
   else
   start <- read_until b_nl ;;
   match re_fullmatch Byte.eqb serial_start_pat start with
   | None => raise (Exception "Start does not match")
   | Some _ =>
     output <- stream_loop fuel [] ;;
     ret (utf8_decode_ignore (removelast output))
   end) (dev_after_reset evs).
Proof. reflexivity. Qed.

(** The device once the start line has been read. *)
Definition dev_streaming (evs : list event) : serial_dev :=
  {| rx_buffer := []; line := evs;
     dev_log := [DResetInputBuffer; DReadUntil b_eq; DReadUntil b_nl] |}.

(** After a valid start line, [run] is its streaming loop. *)
Lemma serial_run_started (buf x : list byte) (R : list event) (fuel : nat) :
  ~ In b_nl x ->
  serial_run (stlink_flash 0) fuel (dev0 buf (map Arrive (start_line x) ++ R)) =
  (output <- stream_loop fuel [] ;;
   ret (utf8_decode_ignore (removelast output))) (dev_streaming R).
Proof.
  intros Hx; rewrite serial_run_prefix.
  assert (E : map Arrive (start_line x) ++ R =
              Arrive b_eq ::
              (map Arrive ((x ++ [b_eq; b_eq; b_eq; b_eq]) ++ [b_nl]) ++ R))
    by (unfold start_line; rewrite !map_app, <- !app_assoc; reflexivity).
  rewrite E; clear E.
  erewrite bind_ok
    by (unfold read_until, dev_after_reset; cbn [rx_buffer line map app take_until];
        rewrite byte_eqb_refl; reflexivity).
  cbn [bytes_eqb app negb]; rewrite byte_eqb_refl; cbn [andb negb].
  erewrite bind_ok
    by (unfold read_until; cbn [rx_buffer line map app];
        rewrite take_until_found
          by (intros H; apply in_app_or in H; destruct H as [H|H];
              [exact (Hx H) | cbn in H; intuition discriminate]);
        reflexivity).
  rewrite <- app_assoc; cbn [app].
  destruct (re_fullmatch Byte.eqb serial_start_pat _) eqn:Em;
    [reflexivity | exfalso; exact (serial_start_pat_accepts x Em)].
Qed.

(** A well-framed transmission: the start line, [k] read timeouts, the
    payload [p] and its [b'#'], then anything. *)
Lemma serial_run_framed (buf x p : list byte) (k f : nat) (r : list event) :
  ~ In b_nl x -> ~ In b_hash p ->
  exists d',
    serial_run (stlink_flash 0) (k + S (S f))
      (dev0 buf (map Arrive (start_line x) ++ repeat Silence k ++
                 map Arrive (p ++ [b_hash]) ++ r)) =
    (Ok (utf8_decode_ignore p), d') /\ line d' = r.
Proof.
  intros Hx Hp; rewrite serial_run_started by exact Hx.
  destruct (stream_loop_found k p r (dev_streaming _) f Hp eq_refl eq_refl)
    as [d' [Hs Hl]].
  erewrite bind_ok by exact Hs.
  unfold ret; rewrite removelast_last.
  exists d'; split; [reflexivity | exact Hl].
Qed.

(** After a valid start line, if no [b'#'] ever arrives, [run] never
    returns. *)
Lemma serial_run_no_stop (buf x : list byte) (evs : list event) (fuel : nat) :
  ~ In b_nl x -> (forall b, In (Arrive b) evs -> b <> b_hash) ->
  fst (serial_run (stlink_flash 0) fuel (dev0 buf (map Arrive (start_line x) ++ evs)))
  = OutOfFuel.
Proof.
  intros Hx He; rewrite serial_run_started by exact Hx.
  pose proof (stream_loop_no_hash fuel [] (dev_streaming evs) (fun H => H) He) as Hs.
  destruct (stream_loop fuel [] (dev_streaming evs)) as [[o| |] d'] eqn:E;
    cbn in Hs; try discriminate.
  erewrite bind_oof by exact E; reflexivity.
Qed.

(** Whatever the flasher and the device do, a transcript returned by
    [run] is the decoding of bytes free of [b'#']. *)
Lemma serial_run_ok_shape (flash : M serial_dev unit) (fuel : nat)
      (d d' : serial_dev) (t : list Z) :
  serial_run flash fuel d = (Ok t, d') ->
  exists ys, t = utf8_decode_ignore ys /\ ~ In b_hash ys.
Proof.
  unfold serial_run, bind; intros H.
  destruct (flash d) as [[u| e |] d1]; try discriminate.
  destruct (reset_input_buffer d1) as [[u'| e |] d2]; try discriminate.
  destruct (read_until b_eq d2) as [[first| e |] d3]; try discriminate.
  destruct (negb (bytes_eqb first [b_eq])); [discriminate|].
  destruct (read_until b_nl d3) as [[start| e |] d4]; try discriminate.
  destruct (re_fullmatch Byte.eqb serial_start_pat start); [|discriminate].
  destruct (stream_loop fuel [] d4) as [[o| e |] d5] eqn:Es; try discriminate.
  injection H as <- _.
  apply stream_loop_shape in Es; [|left; intros []].
  destruct Es as [ys [-> Hys]].
  exists ys; rewrite removelast_last; split; [reflexivity | exact Hys].
Qed.

Lemma bytes_eqb_no_eq (xs : list byte) : ~ In b_eq xs -> bytes_eqb xs [b_eq] = false.
Proof.
  intros H; destruct xs as [|b [|b' xs]]; cbn; try reflexivity.
  rewrite byte_eqb_neq by (intros ->; apply H; left; reflexivity); reflexivity.
  rewrite andb_false_r; reflexivity.
Qed.

Lemma take_until_silence (d : byte) (xs : list byte) (rest : list event) :
  ~ In d xs -> take_until d (map Arrive xs ++ Silence :: rest) = (xs, rest).
Proof.
  induction xs as [|b xs IH]; intros Hn; cbn; [reflexivity|].
  rewrite byte_eqb_neq by (intros ->; apply Hn; left; reflexivity).
  rewrite IH by (intros H; apply Hn; right; exact H); reflexivity.
Qed.

Lemma ends_with_hash_no_hash (o : list byte) : ~ In b_hash o -> ends_with_hash o = false.
Proof.
  intros Hn; destruct (ends_with_hash o) eqn:E; [|reflexivity].
  destruct (ends_with_hash_true o E) as [ys ->].
  exfalso; apply Hn, in_or_app; right; left; reflexivity.
Qed.

(** The streaming loop on a transmission [evs] without ['#'], with read
    timeouts anywhere in it, then the ['#']: each timeout ends one
    [read_until(b'#')] with the bytes received so far, which are kept;
    the loop returns all the bytes and the ['#'] after
    [silences evs + 1] reads. *)
Lemma stream_loop_timeouts (evs : list event) : forall acc out d f r,
  (forall b, In (Arrive b) evs -> b <> b_hash) -> ~ In b_hash acc -> ~ In b_hash out ->
  rx_buffer d = [] ->
  line d = map Arrive acc ++ evs ++ Arrive b_hash :: r ->
  exists d', stream_loop (silences evs + S (S f)) out d =
             (Ok (out ++ acc ++ arrived evs ++ [b_hash]), d') /\
             line d' = r /\
             dev_log d' = dev_log d ++ repeat (DReadUntil b_hash) (S (silences evs)).
Proof.
  induction evs as [|[b|] evs IH]; intros acc out d f r He Ha Ho Hb Hl.
  - cbn [silences Nat.add stream_loop]; rewrite ends_with_hash_no_hash by exact Ho.
    unfold bind, read_until; rewrite Hb, Hl; cbn [map app].
    replace (map Arrive acc ++ Arrive b_hash :: r) with (map Arrive (acc ++ [b_hash]) ++ r)
      by (rewrite map_app, <- app_assoc; reflexivity).
    rewrite take_until_found by exact Ha; cbn [stream_loop].
    rewrite app_assoc, ends_with_hash_app; unfold ret.
    eexists; split; [rewrite <- app_assoc; reflexivity|split; reflexivity].
  - cbn [silences arrived].
    destruct (IH (acc ++ [b]) out d f r) as [d' [E [El Eg]]].
    + intros b' H; apply He; right; exact H.
    + intros H; apply in_app_or in H; destruct H as [H|[H|[]]];
        [exact (Ha H) | apply (He b (or_introl eq_refl)); congruence].
    + exact Ho.
    + exact Hb.
    + rewrite Hl, map_app, <- app_assoc; reflexivity.
    + exists d'; rewrite E, <- app_assoc; split; [reflexivity|split; assumption].
  - cbn [silences arrived Nat.add stream_loop].
    rewrite ends_with_hash_no_hash by exact Ho.
    unfold bind at 1, read_until; rewrite Hb, Hl; cbn [map app].
    rewrite take_until_silence by exact Ha.
    destruct (IH [] (out ++ acc)
                {| rx_buffer := []; line := evs ++ Arrive b_hash :: r;
                   dev_log := dev_log d ++ [DReadUntil b_hash] |} f r)
      as [d' [E [El Eg]]].
    + intros b' H; apply He; right; exact H.
    + intros [].
    + intros H; apply in_app_or in H; tauto.
    + reflexivity.
    + reflexivity.
    + exists d'; rewrite E; cbn [app] in *; rewrite <- app_assoc.
      split; [reflexivity|split; [exact El|]].
      rewrite Eg; cbn [dev_log]; rewrite <- app_assoc; reflexivity.
Qed.

(** ** Running [ChipWhisperer.run] *)

Lemma cw_flash_all_ok (st : cw_state) :
  cw_flash all_ok st =
  (Ok tt, {| polls := polls st;
             prog_log := prog_log st ++ [POpen; PFind; PErase; PProgram; PClose] |}).
Proof.
  destruct st as [ps lg]; unfold cw_flash, bind, prog_step, all_ok; cbn.
  rewrite <- !app_assoc; reflexivity.
Qed.

(** While no poll ever holds ['='], the first loop of [run] polls on. *)
Lemma wait_for_eq_no_eq (fuel : nat) : forall data st,
  ~ In c_eq data -> Forall (fun p => ~ In c_eq p) (polls st) ->
  fst (wait_for_eq fuel data st) = OutOfFuel.
Proof.
  induction fuel as [|f IH]; intros data st Hd Hp; [reflexivity|]; cbn.
  assert (Hx : existsb (Ascii.eqb c_eq) data = false).
  { apply not_true_is_false; intros H; apply existsb_exists in H.
    destruct H as [c [Hc E]]; apply Ascii.eqb_eq in E; subst; contradiction. }
  rewrite Hx; unfold bind, target_read.
  destruct st as [[|p ps] lg]; cbn in *.
  - apply IH; [rewrite app_nil_r; exact Hd | constructor].
  - inversion Hp as [|? ? Hp1 Hps]; subst.
    apply IH; [|exact Hps].
    intros H; apply in_app_or in H; tauto.
Qed.

Lemma cw_run_no_eq (ps : list (list ascii)) (fuel : nat) :
  Forall (fun p => ~ In c_eq p) ps ->
  fst (cw_run all_ok fuel {| polls := ps; prog_log := [] |}) = OutOfFuel.
Proof.
  intros Hp; unfold cw_run.
  erewrite bind_ok by apply cw_flash_all_ok; cbn [polls prog_log app].
  pose proof (wait_for_eq_no_eq fuel []
                {| polls := ps; prog_log := [POpen; PFind; PErase; PProgram; PClose] |}
                (fun H => H) Hp) as Hw.
  destruct (wait_for_eq fuel [] _) as [[o| e |] st'] eqn:E; cbn in Hw; try discriminate.
  erewrite bind_oof by exact E; reflexivity.
Qed.

(** ** Claims *)

Ltac decide_not_in :=
  vm_compute; let H := fresh in
  intros H; repeat (destruct H as [H|H]; [discriminate H|]); exact H.

(** C1 (amended). A stream whose first byte after the input-buffer reset
    is ['='], whose first line then ends with four ['='] right before the
    newline, followed by a payload [p] without ['#'] and a ['#'], makes
    [SerialCommsPlatform.run] return [p] decoded as UTF-8 with invalid
    bytes dropped, whatever follows the ['#']. *)
Theorem C1_framed_payload (buf x p : list byte) (r : list event) (fuel : nat) :
  ~ In b_nl x -> ~ In b_hash p -> (2 <= fuel)%nat ->
  fst (serial_run (stlink_flash 0) fuel
         (dev0 buf (map Arrive (start_line x ++ p ++ [b_hash]) ++ r)))
  = Ok (utf8_decode_ignore p).
Proof.
  intros Hx Hp Hf.
  replace fuel with (0 + S (S (fuel - 2)))%nat by lia.
  destruct (serial_run_framed buf x p 0 (fuel - 2) r Hx Hp) as [d' [E _]].
  rewrite map_app, <- app_assoc; cbn [repeat app] in E; rewrite E; reflexivity.
Qed.

Lemma C1_framed_payload_witness :
  fst (serial_run (stlink_flash 0) 2
         (dev0 [] (map Arrive (start_line (bytes "=====") ++
                               (bytes "bench: 1234 cycles" ++ [b_nl]) ++ [b_hash]) ++ [])))
  = Ok (utf8_decode_ignore (bytes "bench: 1234 cycles" ++ [b_nl])).
Proof. apply C1_framed_payload; [decide_not_in | decide_not_in | lia]. Defined.

(** C1 (counterexample). Scenario A, boot noise before the ['='] run, is
    refused with the "Timout waiting for start" exception, and a start
    line of four ['='] with "Start does not match"; neither returns the
    payload. *)
Lemma C1_scenario_A_refused :
  fst (serial_run (stlink_flash 0) 10
         (dev0 [] (map Arrive (bytes "noise==========" ++ [b_nl] ++
                               bytes "bench: 1234 cycles" ++ [b_nl] ++ [b_hash]))))
  = Raise (Exception "Timout waiting for start") /\
  fst (serial_run (stlink_flash 0) 10
         (dev0 [] (map Arrive (bytes "====" ++ [b_nl] ++
                               bytes "bench: 1234 cycles" ++ [b_nl] ++ [b_hash]))))
  = Raise (Exception "Start does not match").
Proof. split; vm_compute; reflexivity. Qed.

(** C2 (code_bug). [ChipWhisperer.run] keeps [data[:match.end()]], the
    boot noise and the start line, instead of removing them: on the polls
    ["noise===="], ["\n"], ["hi#"], ["\n"] the transcript is
    ["noise====\nhi"], not ["hi"]. *)
Theorem C2_cw_run_keeps_start_prefix :
  fst (cw_run all_ok 10 (cw0 ["noise===="; s_nl; "hi#"; s_nl]%string))
  = Ok (list_ascii_of_string "noise====" ++ [c_nl] ++ list_ascii_of_string "hi").
Proof. vm_compute; reflexivity. Qed.

(** C3 (amended). The byte-oriented reader ends the transcript at the
    first ['#'] received after the start line; interior ['='] do not stop
    it, and the bytes after that ['#'] stay unread on the device. *)
Theorem C3_stops_at_first_hash (buf x p r : list byte) (fuel : nat) :
  ~ In b_nl x -> ~ In b_hash p -> (2 <= fuel)%nat ->
  exists d',
    serial_run (stlink_flash 0) fuel
      (dev0 buf (map Arrive (start_line x ++ p ++ [b_hash] ++ r))) =
    (Ok (utf8_decode_ignore p), d') /\ line d' = map Arrive r.
Proof.
  intros Hx Hp Hf.
  replace fuel with (0 + S (S (fuel - 2)))%nat by lia.
  destruct (serial_run_framed buf x p 0 (fuel - 2) (map Arrive r) Hx Hp)
    as [d' [E Hl]].
  exists d'; split; [|exact Hl].
  rewrite app_assoc, !map_app, <- !app_assoc; rewrite !map_app in E.
  cbn [repeat app] in E; rewrite <- !app_assoc in E; exact E.
Qed.

Lemma C3_stops_at_first_hash_witness :
  exists d',
    serial_run (stlink_flash 0) 2
      (dev0 [] (map Arrive (start_line (bytes "=") ++ bytes "a=b" ++ [b_hash] ++
                            (bytes "c" ++ [b_nl; b_hash])))) =
    (Ok (utf8_decode_ignore (bytes "a=b")), d') /\
    line d' = map Arrive (bytes "c" ++ [b_nl; b_hash]).
Proof. apply C3_stops_at_first_hash; [decide_not_in | decide_not_in | lia]. Defined.

(** C3 (counterexample). For the payload ["a=b#c\n"] followed by ['#'],
    [run] returns ["a=b"]. *)
Lemma C3_interior_hash_stops :
  fst (serial_run (stlink_flash 0) 5
         (dev0 [] (map Arrive (bytes "=====" ++ [b_nl] ++ bytes "a=b#c" ++ [b_nl] ++ [b_hash]))))
  = Ok (map bv (bytes "a=b")).
Proof. vm_compute; reflexivity. Qed.

(** C4 (amended). In the byte-oriented reader the initial wait consumes
    the first ['='], so a start line of one to four ['='] and a newline
    is refused with "Start does not match" whatever follows, while a line
    of five or more ['='] and a newline is accepted. *)
Theorem C4_byte_start_threshold :
  (forall buf m rest fuel, (1 <= m <= 4)%nat ->
     fst (serial_run (stlink_flash 0) fuel
            (dev0 buf (map Arrive (repeat b_eq m ++ [b_nl]) ++ rest)))
     = Raise (Exception "Start does not match")) /\
  (forall buf n p r fuel, (5 <= n)%nat -> ~ In b_hash p -> (2 <= fuel)%nat ->
     fst (serial_run (stlink_flash 0) fuel
            (dev0 buf (map Arrive (repeat b_eq n ++ [b_nl] ++ p ++ [b_hash]) ++ r)))
     = Ok (utf8_decode_ignore p)).
Proof.
  split.
  - intros buf m rest fuel Hm; rewrite serial_run_prefix.
    destruct m as [|[|[|[|[|m]]]]]; try lia; reflexivity.
  - intros buf n p r fuel Hn Hp Hf.
    assert (El : repeat b_eq n ++ [b_nl] ++ p ++ [b_hash] =
                 start_line (repeat b_eq (n - 5)) ++ p ++ [b_hash]).
    { unfold start_line; replace n with (S ((n - 5) + 4)) by lia.
      cbn [repeat app]; rewrite repeat_app, <- !app_assoc.
      replace (S (n - 5 + 4) - 5)%nat with (n - 5)%nat by lia; reflexivity. }
    rewrite El.
    assert (Hx : ~ In b_nl (repeat b_eq (n - 5)))
      by (intros H; apply repeat_spec in H; discriminate H).
    replace fuel with (0 + S (S (fuel - 2)))%nat by lia.
    destruct (serial_run_framed buf (repeat b_eq (n - 5)) p 0 (fuel - 2) r Hx Hp)
      as [d' [E _]].
    rewrite map_app, <- app_assoc; cbn [repeat app] in E; rewrite E; reflexivity.
Qed.

Lemma C4_byte_start_threshold_witness :
  fst (serial_run (stlink_flash 0) 2
         (dev0 [] (map Arrive (repeat b_eq 4 ++ [b_nl]) ++ map Arrive (bytes "ab#"))))
  = Raise (Exception "Start does not match") /\
  fst (serial_run (stlink_flash 0) 2
         (dev0 [] (map Arrive (repeat b_eq 5 ++ [b_nl] ++ bytes "ab" ++ [b_hash]) ++ [])))
  = Ok (utf8_decode_ignore (bytes "ab")).
Proof.
  split.
  - apply (proj1 C4_byte_start_threshold); lia.
  - apply (proj2 C4_byte_start_threshold); [lia | decide_not_in | lia].
Defined.

(** C4 (counterexample). ["====\n"] followed by a payload and ['#'] is
    refused by [SerialCommsPlatform.run]. *)
Lemma C4_four_eq_refused :
  fst (serial_run (stlink_flash 0) 5
         (dev0 [] (map Arrive (bytes "====" ++ [b_nl] ++ bytes "ab" ++ [b_hash]))))
  = Raise (Exception "Start does not match").
Proof. vm_compute; reflexivity. Qed.

(** C5 (amended). A read timeout while streaming is not an error: each
    timeout ends one [read_until(b'#')] with the bytes received so far
    (possibly none), [run] keeps them and reads again. Whatever timeouts
    interrupt the payload, [run] returns the decoding of all its bytes
    once a ['#'] arrives, after one more [read_until(b'#')] than there
    were timeouts. If no ['#'] ever arrives it keeps reading and never
    returns (for every fuel the loop is still running). *)
Theorem C5_streaming_timeouts_tolerated :
  (forall buf x evs r fuel,
     ~ In b_nl x -> (forall b, In (Arrive b) evs -> b <> b_hash) ->
     (silences evs + 2 <= fuel)%nat ->
     exists d',
       serial_run (stlink_flash 0) fuel
         (dev0 buf (map Arrive (start_line x) ++ evs ++ Arrive b_hash :: r))
       = (Ok (utf8_decode_ignore (arrived evs)), d') /\
       line d' = r /\
       dev_log d' = [DResetInputBuffer; DReadUntil b_eq; DReadUntil b_nl]
                    ++ repeat (DReadUntil b_hash) (S (silences evs))) /\
  (forall buf x evs fuel,
     ~ In b_nl x -> (forall b, In (Arrive b) evs -> b <> b_hash) ->
     fst (serial_run (stlink_flash 0) fuel
            (dev0 buf (map Arrive (start_line x) ++ evs)))
     = OutOfFuel).
Proof.
  split.
  - intros buf x evs r fuel Hx He Hf.
    rewrite serial_run_started by exact Hx.
    replace fuel with (silences evs + S (S (fuel - silences evs - 2)))%nat by lia.
    destruct (stream_loop_timeouts evs [] [] (dev_streaming (evs ++ Arrive b_hash :: r))
                (fuel - silences evs - 2) r He (fun H => H) (fun H => H) eq_refl eq_refl)
      as [d' [E [El Eg]]].
    erewrite bind_ok by exact E.
    unfold ret; cbn [app]; rewrite removelast_last.
    exists d'; split; [reflexivity|split; [exact El | exact Eg]].
  - intros buf x evs fuel Hx He; apply serial_run_no_stop; assumption.
Qed.

Lemma C5_streaming_timeouts_tolerated_witness :
  (exists d',
     serial_run (stlink_flash 0) 3
       (dev0 [] (map Arrive (start_line []) ++
                 (map Arrive (bytes "ab") ++ [Silence] ++ map Arrive (bytes "c")) ++
                 Arrive b_hash :: []))
     = (Ok (utf8_decode_ignore
              (arrived (map Arrive (bytes "ab") ++ [Silence] ++ map Arrive (bytes "c")))), d') /\
     line d' = [] /\
     dev_log d' = [DResetInputBuffer; DReadUntil b_eq; DReadUntil b_nl]
                  ++ repeat (DReadUntil b_hash)
                       (S (silences (map Arrive (bytes "ab") ++ [Silence] ++ map Arrive (bytes "c"))))) /\
  fst (serial_run (stlink_flash 0) 100
         (dev0 [] (map Arrive (start_line []) ++ [Silence; Arrive x41; Silence])))
  = OutOfFuel.
Proof.
  split.
  - apply (proj1 C5_streaming_timeouts_tolerated); [decide_not_in | | cbn; lia].
    intros b H; cbn in H.
    destruct H as [H|[H|[H|[H|[]]]]]; try discriminate H; injection H as <-; discriminate.
  - apply (proj2 C5_streaming_timeouts_tolerated); [decide_not_in|].
    intros b H; cbn in H.
    destruct H as [H|[H|[H|[]]]]; try discriminate H; injection H as <-; discriminate.
Defined.

(** C5 (counterexample). A timeout right after the start line does not
    fail the run: the next read picks up ["x#"] and [run] returns ["x"]. *)
Lemma C5_timeout_then_data :
  fst (serial_run (stlink_flash 0) 3
         (dev0 [] (map Arrive (bytes "=====" ++ [b_nl]) ++ [Silence] ++
                   map Arrive (bytes "x#"))))
  = Ok [120%Z].
Proof. vm_compute; reflexivity. Qed.

(** C6 (amended). Byte-oriented variant: when no ['='] arrives before the
    first [read_until(b'=')] times out, [run] raises "Timout waiting for
    start", never "Start does not match". Character-oriented
    (ChipWhisperer) variant: it has no timeout, and when no ['='] ever
    arrives it polls on and neither returns nor raises. *)
Theorem C6_start_timeout :
  (forall buf xs tail fuel,
     ~ In b_eq xs -> (tail = [] \/ exists t, tail = Silence :: t) ->
     fst (serial_run (stlink_flash 0) fuel (dev0 buf (map Arrive xs ++ tail)))
     = Raise (Exception "Timout waiting for start")) /\
  (forall ps fuel,
     Forall (fun p => ~ In c_eq p) ps ->
     fst (cw_run all_ok fuel {| polls := ps; prog_log := [] |}) = OutOfFuel).
Proof.
  split.
  - intros buf xs tail fuel Hx Ht; rewrite serial_run_prefix.
    pose proof (take_until_timeout b_eq xs tail Hx Ht) as Hr.
    unfold bind at 1, read_until, dev_after_reset; cbn [rx_buffer line map app].
    destruct (take_until b_eq (map Arrive xs ++ tail)) as [r rest]; cbn in Hr; subst r.
    rewrite bytes_eqb_no_eq by exact Hx; reflexivity.
  - exact cw_run_no_eq.
Qed.

Lemma C6_start_timeout_witness :
  fst (serial_run (stlink_flash 0) 3 (dev0 [] (map Arrive (bytes "boot") ++ [Silence])))
  = Raise (Exception "Timout waiting for start") /\
  fst (cw_run all_ok 50 {| polls := [list_ascii_of_string "boot"]; prog_log := [] |})
  = OutOfFuel.
Proof.
  split.
  - apply (proj1 C6_start_timeout); [decide_not_in | right; exists []; reflexivity].
  - apply (proj2 C6_start_timeout); constructor; [decide_not_in | constructor].
Defined.

(** C6 (counterexample). The ChipWhisperer reader on a target that only
    ever sends ["boot"] never raises, whatever the fuel. *)
Lemma C6_cw_never_raises :
  ~ (exists fuel e,
       fst (cw_run all_ok fuel (cw0 ["boot"]%string)) = Raise e).
Proof.
  intros [fuel [e H]]; unfold cw0 in H.
  rewrite (cw_run_no_eq _ fuel) in H; [discriminate|].
  constructor; [decide_not_in | constructor].
Qed.

(** C7. If st-flash exits with a non-zero status, [run] raises
    [CalledProcessError] and leaves the device untouched: no input-buffer
    reset and no read is made. *)
Theorem C7_flash_failure_no_io (rc : Z) (fuel : nat) (d : serial_dev) :
  rc <> 0%Z ->
  serial_run (stlink_flash rc) fuel d = (Raise (CalledProcessError rc), d).
Proof.
  intros Hrc; unfold serial_run, stlink_flash.
  rewrite (proj2 (Z.eqb_neq rc 0) Hrc).
  apply bind_raise; reflexivity.
Qed.

Lemma C7_flash_failure_no_io_witness :
  serial_run (stlink_flash 1) 5 (dev0 [x41] (map Arrive (bytes "=====")))
  = (Raise (CalledProcessError 1), dev0 [x41] (map Arrive (bytes "====="))).
Proof. apply C7_flash_failure_no_io; discriminate. Defined.

(** C8 (amended). [ChipWhisperer.flash] has no exception handling: the
    first of open, find, erase, program and close that raises ends
    [flash] at once with its error, and the later calls, [close]
    included, are not made; when none raises all five are made. Hence
    [close] is called exactly when the four calls before it return
    normally, and an escaping error is a failing call's. *)
Theorem C8_close_only_after_success (ok : prog_call -> bool) (ps : list (list ascii)) :
  (forall pre c post,
     [POpen; PFind; PErase; PProgram; PClose] = pre ++ c :: post ->
     forallb ok pre = true -> ok c = false ->
     cw_flash ok {| polls := ps; prog_log := [] |}
     = (Raise (ProgrammerError c), {| polls := ps; prog_log := pre ++ [c] |})) /\
  (forallb ok [POpen; PFind; PErase; PProgram; PClose] = true ->
   cw_flash ok {| polls := ps; prog_log := [] |}
   = (Ok tt, {| polls := ps; prog_log := [POpen; PFind; PErase; PProgram; PClose] |})) /\
  (In PClose (prog_log (snd (cw_flash ok {| polls := ps; prog_log := [] |}))) <->
   ok POpen = true /\ ok PFind = true /\ ok PErase = true /\ ok PProgram = true) /\
  (forall e, fst (cw_flash ok {| polls := ps; prog_log := [] |}) = Raise e ->
   exists c, e = ProgrammerError c /\ ok c = false).
Proof.
  split; [|split].
  - intros pre c post E Hpre Hc.
    assert (Hlen : (List.length pre < 5)%nat)
      by (apply (f_equal (@List.length prog_call)) in E;
          rewrite length_app in E; cbn in E; lia).
    destruct pre as [|p1 [|p2 [|p3 [|p4 [|p5 pre]]]]]; cbn in Hlen; try lia;
      cbn [app] in E; injection E; intros; subst; cbn [forallb] in Hpre;
      repeat match goal with
             | H : (_ && _)%bool = true |- _ => apply andb_true_iff in H; destruct H
             end;
      unfold cw_flash, bind, prog_step; cbn;
      repeat match goal with
             | H : ok ?c = _ |- context [ok ?c] => rewrite H
             end; reflexivity.
  - intros Hall; cbn [forallb] in Hall;
      repeat match goal with
             | H : (_ && _)%bool = true |- _ => apply andb_true_iff in H; destruct H
             end;
      unfold cw_flash, bind, prog_step; cbn;
      repeat match goal with
             | H : ok ?c = _ |- context [ok ?c] => rewrite H
             end; reflexivity.
  - unfold cw_flash, bind, prog_step; cbn.
    destruct (ok POpen) eqn:E1, (ok PFind) eqn:E2, (ok PErase) eqn:E3,
             (ok PProgram) eqn:E4, (ok PClose) eqn:E5; cbn;
    ((split; [split|]);
    [ intros H; repeat split; try reflexivity; exfalso;
      repeat match type of H with _ \/ _ => destruct H as [H|H]; [discriminate H|] end;
      destruct H
    | intros (H1 & H2 & H3 & H4); try congruence;
      repeat (first [left; reflexivity | right])
    | intros e He;
      first [ discriminate He
            | injection He as <-; eexists; split; [reflexivity | assumption] ] ]).
Qed.

Lemma C8_close_only_after_success_witness :
  cw_flash (fun c => match c with PErase => false | _ => true end)
           {| polls := []; prog_log := [] |}
  = (Raise (ProgrammerError PErase), {| polls := []; prog_log := [POpen; PFind] ++ [PErase] |}).
Proof.
  apply (proj1 (C8_close_only_after_success
                  (fun c => match c with PErase => false | _ => true end) [])
           [POpen; PFind] PErase [PProgram; PClose]); reflexivity.
Defined.

(** C8 (counterexample). When [find] raises, the log holds open and find
    only: [close] is never called. *)
Lemma C8_find_raises_no_close :
  cw_flash (fun c => match c with PFind => false | _ => true end) (cw0 [])
  = (Raise (ProgrammerError PFind), {| polls := []; prog_log := [POpen; PFind] |}).
Proof. reflexivity. Qed.

(** C9 (amended). The stripped buffer is decoded with [errors='ignore'],
    so decoding never raises: whatever bytes the payload holds, [run]
    returns its decoding. Each invalid byte sequence [e] is dropped with
    no replacement character, whatever its kind ([utf8_error]: a byte
    that starts no sequence, a truncated sequence, a bad continuation
    byte, an overlong or surrogate form): well-formed text (sequences
    [chunks], ASCII or not) followed by [e] and further bytes [w] yields
    the decoding of the text followed by the decoding of [w]. *)
Theorem C9_invalid_byte_dropped :
  (forall (buf x p : list byte) (r : list event) (fuel : nat),
     ~ In b_nl x -> ~ In b_hash p -> (2 <= fuel)%nat ->
     fst (serial_run (stlink_flash 0) fuel
            (dev0 buf (map Arrive (start_line x ++ p ++ [b_hash]) ++ r)))
     = Ok (utf8_decode_ignore p)) /\
  (forall (buf x : list byte) (chunks : list (list byte)) (e w : list byte)
          (r : list event) (fuel : nat),
     ~ In b_nl x ->
     Forall (fun ch => wf_char ch = true) chunks ->
     utf8_error e w = true ->
     ~ In b_hash (List.concat chunks ++ e ++ w) -> (2 <= fuel)%nat ->
     fst (serial_run (stlink_flash 0) fuel
            (dev0 buf (map Arrive (start_line x ++ (List.concat chunks ++ e ++ w) ++ [b_hash])
                       ++ r)))
     = Ok (utf8_decode_ignore (List.concat chunks) ++ utf8_decode_ignore w)).
Proof.
  assert (Hrun : forall (buf x p : list byte) (r : list event) (fuel : nat),
             ~ In b_nl x -> ~ In b_hash p -> (2 <= fuel)%nat ->
             fst (serial_run (stlink_flash 0) fuel
                    (dev0 buf (map Arrive (start_line x ++ p ++ [b_hash]) ++ r)))
             = Ok (utf8_decode_ignore p)).
  { intros buf x p r fuel Hx Hp Hf.
    replace fuel with (0 + S (S (fuel - 2)))%nat by lia.
    destruct (serial_run_framed buf x p 0 (fuel - 2) r Hx Hp) as [d' [E _]].
    rewrite map_app, <- app_assoc; cbn [repeat app] in E; rewrite E; reflexivity. }
  split; [exact Hrun|].
  intros buf x chunks e w r fuel Hx Hc He Hp Hf.
  rewrite (Hrun buf x _ r fuel Hx Hp Hf).
  rewrite decode_wf_concat by exact Hc.
  rewrite decode_error by exact He; reflexivity.
Qed.

(** [C3 A9] is "é"; [ED] starts a surrogate, which [A0] cannot continue;
    [A0] and [80] start no sequence. Only "é" and "a" are left. *)
Lemma C9_invalid_byte_dropped_witness :
  fst (serial_run (stlink_flash 0) 2
         (dev0 [] (map Arrive (start_line [] ++ (List.concat [[xc3; xa9]] ++ [xed] ++ [xa0; x80; x61])
                               ++ [b_hash]) ++ [])))
  = Ok (utf8_decode_ignore (List.concat [[xc3; xa9]]) ++ utf8_decode_ignore [xa0; x80; x61]).
Proof.
  apply (proj2 C9_invalid_byte_dropped);
    [decide_not_in | repeat constructor | reflexivity | decide_not_in | lia].
Defined.

(** C9 (counterexample). The payload bytes [61 FF 62] come out as ["ab"]:
    the invalid byte leaves no replacement character (U+FFFD) behind. *)
Lemma C9_invalid_byte_not_replaced :
  fst (serial_run (stlink_flash 0) 5
         (dev0 [] (map Arrive (bytes "=====" ++ [b_nl] ++ [x61; xff; x62] ++ [b_hash]))))
  = Ok [97%Z; 98%Z] /\ ~ In 65533%Z [97%Z; 98%Z].
Proof. split; [vm_compute; reflexivity | cbn; lia]. Qed.

(** C10. Whatever the flasher and the device do, a transcript returned by
    [SerialCommsPlatform.run] contains no ['#'] (U+0023). *)
Theorem C10_transcript_has_no_hash (flash : M serial_dev unit) (fuel : nat)
        (d d' : serial_dev) (t : list Z) :
  serial_run flash fuel d = (Ok t, d') -> ~ In 35%Z t.
Proof.
  intros H; destruct (serial_run_ok_shape flash fuel d d' t H) as [ys [-> Hys]].
  apply decode_no_hash; exact Hys.
Qed.

Lemma C10_transcript_has_no_hash_witness :
  ~ In 35%Z (map bv (bytes "n=1")).
Proof.
  apply (C10_transcript_has_no_hash (stlink_flash 0) 3
           (dev0 [] (map Arrive (bytes "=====" ++ [b_nl] ++ bytes "n=1#")))
           (snd (serial_run (stlink_flash 0) 3
                   (dev0 [] (map Arrive (bytes "=====" ++ [b_nl] ++ bytes "n=1#")))))).
  vm_compute; reflexivity.
Defined.

(** ** Further properties of interface.py *)

(** *** [get_platform] and [M4Settings] *)

Lemma in_choices_In (choices : list string) (v : string) :
  in_choices choices v = true -> In v choices.
Proof.
  unfold in_choices; intros H; apply existsb_exists in H.
  destruct H as [c [Hc E]]; apply String.eqb_eq in E; subst; exact Hc.
Qed.

Lemma optflags_none (opt : string) :
  in_choices opt_choices opt = false -> optflags opt = None.
Proof.
  unfold in_choices, opt_choices, optflags; cbn [existsb]; intros H.
  destruct (String.eqb opt "speed"); [discriminate|].
  destruct (String.eqb opt "size"); [discriminate|].
  destruct (String.eqb opt "debug"); [discriminate|reflexivity].
Qed.

(** X1. For every platform and optimisation level that argparse accepts,
    [get_platform] fails only when the platform's constructor fails. An
    STM32 board gets [StLink(args.uart)] at 38400 baud with timeout 60 and
    [bin] binaries. It fails with [SerialException] only when [-u] names
    a port that cannot be opened; without [-u] no port is opened (the
    constructor's default [/dev/ttyACM0] is not used). [cw308t-stm32f3]
    gets a ChipWhisperer and [hex] binaries; it fails with [NameError]
    when chipwhisperer did not import, and with [cw.scope()]'s error when
    no scope is attached. *)
Theorem get_platform_accepted_args (h : host) (a : args) :
  in_choices platform_choices (a_platform a) = true ->
  in_choices opt_choices (a_opt a) = true ->
  (a_platform a <> "cw308t-stm32f3"%string ->
   (match a_uart a with None => True | Some port => port_opens h port = true end ->
    exists settings, get_platform h a = inr (StLinkObj (a_uart a) 38400 60, settings) /\
                     binary_type settings = "bin"%string) /\
   (forall port, a_uart a = Some port -> port_opens h port = false ->
    get_platform h a = inl (SerialException port))) /\
  (a_platform a = "cw308t-stm32f3"%string ->
   (cw_imported h = true -> scope_attached h = true ->
    exists settings, get_platform h a = inr (ChipWhispererObj, settings) /\
                     binary_type settings = "hex"%string) /\
   (cw_imported h = false -> get_platform h a = inl (NameError "cw")) /\
   (cw_imported h = true -> scope_attached h = false -> get_platform h a = inl ScopeError)).
Proof.
  destruct h as [po ci sa]; destruct a as [p o l ai u]; cbn [a_platform a_opt a_uart].
  intros Hp Ho; apply in_choices_In in Hp, Ho.
  unfold get_platform, make_platform, stlink_init, serial_open, chipwhisperer_init;
    cbn [port_opens cw_imported scope_attached a_platform a_opt a_lto a_aio a_uart].
  destruct u as [port|]; [destruct (po port) eqn:Epo|]; destruct ci, sa;
  destruct Hp as [<-|[<-|[<-|[]]]]; destruct Ho as [<-|[<-|[<-|[]]]]; cbn;
  repeat match goal with
  | |- _ /\ _ => split
  | |- ?x <> ?x -> _ => intros Hc; exfalso; apply Hc; reflexivity
  | |- _ <> _ -> _ => intros _
  | |- True -> _ => intros _
  | |- _ = _ -> _ =>
    let E := fresh "E" in
    intros E; first [discriminate E | injection E as E; subst | idtac]
  | |- forall _, _ => intro
  | |- exists _, _ => eexists; split; reflexivity
  | |- _ => cbn; rewrite ?Epo; reflexivity
  | |- _ => congruence
  end.
Qed.

Lemma get_platform_accepted_args_witness :
  in_choices platform_choices "nucleo-l476rg" = true /\
  in_choices opt_choices "size" = true /\
  exists settings,
    get_platform {| port_opens := fun _ => false; cw_imported := false;
                    scope_attached := false |}
                 {| a_platform := "nucleo-l476rg"; a_opt := "size"; a_lto := true;
                    a_aio := false; a_uart := None |}
    = inr (StLinkObj None 38400 60, settings) /\ binary_type settings = "bin"%string.
Proof.
  split; [reflexivity|]; split; [reflexivity|].
  refine (proj1 (proj1 (get_platform_accepted_args
           {| port_opens := fun _ => false; cw_imported := false; scope_attached := false |}
           {| a_platform := "nucleo-l476rg"; a_opt := "size"; a_lto := true;
              a_aio := false; a_uart := None |} eq_refl eq_refl) _) I).
  discriminate.
Defined.

(** X2. A platform outside argparse's choices makes [get_platform] raise
    [NotImplementedError("Unsupported Platform")], whatever the
    optimisation level: the platform is checked before [M4Settings]
    checks [opt]. *)
Theorem get_platform_unsupported (h : host) (a : args) :
  in_choices platform_choices (a_platform a) = false ->
  get_platform h a = inl (NotImplementedError "Unsupported Platform").
Proof.
  unfold get_platform, make_platform, in_choices, platform_choices; cbn [existsb]; intros H.
  destruct (String.eqb (a_platform a) "stm32f4discovery"); [discriminate|].
  destruct (String.eqb (a_platform a) "nucleo-l476rg"); [discriminate|].
  destruct (String.eqb (a_platform a) "cw308t-stm32f3"); [discriminate|].
  reflexivity.
Qed.

Lemma get_platform_unsupported_witness :
  in_choices platform_choices "qemu" = false /\
  get_platform {| port_opens := fun _ => true; cw_imported := true; scope_attached := true |}
               {| a_platform := "qemu"; a_opt := "fast"; a_lto := false;
                  a_aio := false; a_uart := None |}
  = inl (NotImplementedError "Unsupported Platform").
Proof.
  split; [reflexivity|].
  apply (get_platform_unsupported
           {| port_opens := fun _ => true; cw_imported := true; scope_attached := true |}
           {| a_platform := "qemu"; a_opt := "fast"; a_lto := false;
              a_aio := false; a_uart := None |}); reflexivity.
Defined.

(** X3. On a supported platform with an optimisation level that is not a
    key of [optflags], [get_platform] always raises. The platform object
    is built first, so a failing constructor's exception comes out.
    Otherwise it is [M4Settings]'s [ValueError], whose message lists the
    accepted keys. *)
Theorem get_platform_bad_opt (h : host) (a : args) :
  in_choices platform_choices (a_platform a) = true ->
  in_choices opt_choices (a_opt a) = false ->
  get_platform h a =
  match make_platform h a with
  | inl e => inl e
  | inr _ => inl (ValueError "Optimization flag should be in ['speed', 'size', 'debug']")
  end /\
  (forall e, make_platform h a = inl e ->
   e = NameError "cw" \/ e = ScopeError \/ exists port, e = SerialException port).
Proof.
  intros Hp Ho; apply in_choices_In in Hp.
  split.
  - unfold get_platform, m4settings_init; rewrite (optflags_none _ Ho).
    destruct (make_platform h a) as [e|[obj bt]]; reflexivity.
  - intros e; destruct h as [po ci sa]; destruct a as [p o l ai u]; cbn [a_platform] in *.
    unfold make_platform, stlink_init, serial_open, chipwhisperer_init;
      cbn [a_platform a_uart port_opens cw_imported scope_attached].
    destruct u as [port|]; [destruct (po port)|]; destruct ci, sa;
      destruct Hp as [<-|[<-|[<-|[]]]]; cbn;
      intros E; try discriminate E; injection E as <-; eauto.
Qed.

Lemma get_platform_bad_opt_witness :
  in_choices platform_choices "cw308t-stm32f3" = true /\
  in_choices opt_choices "O3" = false /\
  get_platform {| port_opens := fun _ => true; cw_imported := true; scope_attached := false |}
               {| a_platform := "cw308t-stm32f3"; a_opt := "O3"; a_lto := false;
                  a_aio := true; a_uart := None |}
  = inl ScopeError.
Proof.
  split; [reflexivity|]; split; [reflexivity|].
  rewrite (proj1 (get_platform_bad_opt
           {| port_opens := fun _ => true; cw_imported := true; scope_attached := false |}
           {| a_platform := "cw308t-stm32f3"; a_opt := "O3"; a_lto := false;
              a_aio := true; a_uart := None |} eq_refl eq_refl)).
  reflexivity.
Defined.

(** X4. The settings [M4Settings] builds keep the binary type; their make
    flags start with [PLATFORM=<platform>], hold [LTO=1] exactly when
    [lto] is set, [AIO=1] exactly when [aio] is set, [OPT_SIZE=1] exactly
    for [size], [DEBUG=1] exactly for [debug], and no flag twice. *)
Theorem m4settings_makeflags (platform opt : string) (lto aio : bool) (bt : string)
        (s : m4settings) :
  m4settings_init platform opt lto aio bt = inr s ->
  binary_type s = bt /\
  hd_error (makeflags s) = Some (String.append "PLATFORM=" platform) /\
  (In "LTO=1"%string (makeflags s) <-> lto = true) /\
  (In "AIO=1"%string (makeflags s) <-> aio = true) /\
  (In "OPT_SIZE=1"%string (makeflags s) <-> opt = "size"%string) /\
  (In "DEBUG=1"%string (makeflags s) <-> opt = "debug"%string) /\
  NoDup (makeflags s).
Proof.
  unfold m4settings_init, optflags.
  destruct (String.eqb_spec opt "speed") as [->|N1];
  [|destruct (String.eqb_spec opt "size") as [->|N2];
  [|destruct (String.eqb_spec opt "debug") as [->|N3]; [|discriminate]]];
  intros H; injection H as <-; cbn [binary_type makeflags];
  (split; [reflexivity|]); (split; [reflexivity|]);
  destruct lto, aio; cbn [app];
  repeat split;
  repeat match goal with
  | |- NoDup _ => constructor
  | |- ~ In _ _ => cbn; intros ?; intuition discriminate
  | |- In _ _ -> _ => cbn; intros ?; intuition (try discriminate; try congruence)
  | |- _ = _ -> In _ _ => intros E; try discriminate E; try congruence; cbn; tauto
  end.
Qed.

Lemma m4settings_makeflags_witness :
  binary_type {| binary_type := "bin"; makeflags := ["PLATFORM=stm32f4discovery"; "DEBUG=1"; "LTO=1"]%string |}
  = "bin"%string.
Proof.
  destruct (m4settings_makeflags "stm32f4discovery" "debug" true false "bin"
              {| binary_type := "bin";
                 makeflags := ["PLATFORM=stm32f4discovery"; "DEBUG=1"; "LTO=1"]%string |}
              ltac:(reflexivity)) as [H _].
  exact H.
Defined.

(** *** [SerialCommsPlatform.run] *)

Lemma first_some_some {B} (f : nat -> option B) (l : list nat) (r : B) :
  first_some f l = Some r -> exists k, In k l /\ f k = Some r.
Proof.
  induction l as [|k l IH]; cbn; [discriminate|].
  destruct (f k) eqn:E; intros H.
  - injection H as <-; exists k; auto.
  - destruct (IH H) as [k' [Hk Hf]]; exists k'; auto.
Qed.

Lemma run_len_firstn (c : byte) (s : list byte) (k : nat) :
  k <= run_len Byte.eqb c s -> firstn k s = repeat c k.
Proof.
  revert k; induction s as [|x s IH]; intros k Hk; cbn in Hk.
  - replace k with 0 by lia; reflexivity.
  - destruct k as [|k]; [reflexivity|].
    destruct (Byte.eqb x c) eqn:E; [|lia].
    apply Byte.byte_dec_bl in E; subst; cbn; f_equal; apply IH; lia.
Qed.

(** X8. [start_pat.fullmatch(line)] succeeds exactly on the lines that end
    in four [b'='] and the newline; what comes before is arbitrary. *)
Theorem serial_start_pat_fullmatch (s : list byte) :
  re_fullmatch Byte.eqb serial_start_pat s <> None <->
  exists y, s = y ++ [b_eq; b_eq; b_eq; b_eq; b_nl].
Proof.
  split; [|intros [y ->]; apply serial_start_pat_accepts].
  unfold re_fullmatch, serial_start_pat; cbn [re_at].
  destruct (first_some _ _) as [e|] eqn:E; [intros _|congruence].
  apply first_some_some in E; destruct E as [k [_ E]]; cbn [re_at] in E.
  destruct (Nat.ltb_spec (run_len Byte.eqb b_eq (skipn k s)) 4) as [_|Hm];
    [discriminate|].
  apply first_some_some in E; destruct E as [k' [Hk' E]].
  apply in_rev in Hk'; apply in_seq in Hk'.
  cbn [re_at] in E.
  destruct (skipn k' (skipn k s)) as [|x [|y t]] eqn:Et; try discriminate;
    destruct (Byte.eqb x b_nl) eqn:Ex; try discriminate.
  apply Byte.byte_dec_bl in Ex; subst x.
  pose proof (run_len_firstn b_eq (skipn k s) k' ltac:(lia)) as Hf.
  exists (firstn k s ++ repeat b_eq (k' - 4)).
  rewrite <- (firstn_skipn k s) at 1.
  rewrite <- (firstn_skipn k' (skipn k s)), Hf, Et.
  replace k' with ((k' - 4) + 4) at 1 by lia.
  rewrite repeat_app, <- !app_assoc; reflexivity.
Qed.

(** X5. Bytes received before [run] and still unread (boot noise, output of
    an earlier program) never influence it: [reset_input_buffer()] drops
    them, so the outcome and the device's remaining input and call log are
    those of a run on an empty receive buffer. *)
Theorem serial_run_discards_stale_input (rc : Z) (fuel : nat) (buf : list byte)
        (evs : list event) :
  fst (serial_run (stlink_flash rc) fuel (dev0 buf evs)) =
  fst (serial_run (stlink_flash rc) fuel (dev0 [] evs)) /\
  line (snd (serial_run (stlink_flash rc) fuel (dev0 buf evs))) =
  line (snd (serial_run (stlink_flash rc) fuel (dev0 [] evs))) /\
  dev_log (snd (serial_run (stlink_flash rc) fuel (dev0 buf evs))) =
  dev_log (snd (serial_run (stlink_flash rc) fuel (dev0 [] evs))).
Proof.
  destruct (Z.eqb_spec rc 0) as [->|Hrc].
  - rewrite !serial_run_prefix; repeat split; reflexivity.
  - unfold serial_run, stlink_flash; rewrite (proj2 (Z.eqb_neq rc 0) Hrc).
    repeat split; reflexivity.
Qed.

(** X6. Any other byte received before the first [b'='] (the bytes up to
    and including it are read at once) makes [run] raise
    [Exception('Timout waiting for start')], although no timeout
    occurred; nothing more is read. *)
Theorem serial_run_noise_before_start (buf noise : list byte) (rest : list event)
        (fuel : nat) :
  noise <> [] -> ~ In b_eq noise ->
  serial_run (stlink_flash 0) fuel (dev0 buf (map Arrive (noise ++ [b_eq]) ++ rest)) =
  (Raise (Exception "Timout waiting for start"),
   {| rx_buffer := []; line := rest; dev_log := [DResetInputBuffer; DReadUntil b_eq] |}).
Proof.
  intros Hne Hn; rewrite serial_run_prefix.
  erewrite bind_ok
    by (unfold read_until, dev_after_reset; cbn [rx_buffer line map app];
        rewrite take_until_found by exact Hn; reflexivity).
  destruct noise as [|b n']; [contradiction|].
  assert (E : bytes_eqb ((b :: n') ++ [b_eq]) [b_eq] = false)
    by (cbn [app bytes_eqb]; destruct n'; cbn; apply andb_false_r).
  rewrite E; reflexivity.
Qed.

Lemma serial_run_noise_before_start_witness :
  [x2e] <> [] /\ ~ In b_eq [x2e] /\
  serial_run (stlink_flash 0) 4 (dev0 [] (map Arrive ([x2e] ++ [b_eq]) ++ sent (bytes "====")))
  = (Raise (Exception "Timout waiting for start"),
     {| rx_buffer := []; line := sent (bytes "===="); dev_log := [DResetInputBuffer; DReadUntil b_eq] |}).
Proof.
  split; [discriminate|]; split; [decide_not_in|].
  apply (serial_run_noise_before_start [] [x2e] (sent (bytes "====")) 4);
    [discriminate | decide_not_in].
Defined.

(** X7. When the rest of the start line is cut off by a read timeout
    before its newline, [run] raises [Exception('Start does not match')],
    however many [b'='] arrived. *)
Theorem serial_run_start_cut (buf x : list byte) (rest : list event) (fuel : nat) :
  ~ In b_nl x ->
  fst (serial_run (stlink_flash 0) fuel
         (dev0 buf (Arrive b_eq :: map Arrive x ++ Silence :: rest)))
  = Raise (Exception "Start does not match").
Proof.
  intros Hx; rewrite serial_run_prefix.
  erewrite bind_ok
    by (unfold read_until, dev_after_reset; cbn [rx_buffer line map app take_until];
        rewrite byte_eqb_refl; reflexivity).
  cbn [bytes_eqb app negb]; rewrite byte_eqb_refl; cbn [andb negb].
  unfold bind at 1, read_until; cbn [rx_buffer line map app].
  pose proof (take_until_timeout b_nl x (Silence :: rest) Hx
                (or_intror (ex_intro _ rest eq_refl))) as Ht.
  destruct (take_until b_nl (map Arrive x ++ Silence :: rest)) as [r rest']; cbn in Ht; subst r.
  destruct (re_fullmatch Byte.eqb serial_start_pat x) eqn:Em; [|reflexivity].
  exfalso; destruct (proj1 (serial_start_pat_fullmatch x) ltac:(congruence)) as [y ->].
  apply Hx, in_or_app; right; cbn; tauto.
Qed.

Lemma serial_run_start_cut_witness :
  ~ In b_nl (bytes "=======") /\
  fst (serial_run (stlink_flash 0) 3
         (dev0 [] (Arrive b_eq :: map Arrive (bytes "=======") ++ Silence :: sent (bytes "x#"))))
  = Raise (Exception "Start does not match").
Proof.
  split; [decide_not_in|].
  apply (serial_run_start_cut [] (bytes "=======") (sent (bytes "x#")) 3); decide_not_in.
Defined.

Lemma stream_loop_log (fuel : nat) : forall output d o d',
  stream_loop fuel output d = (Ok o, d') ->
  exists m, dev_log d' = dev_log d ++ repeat (DReadUntil b_hash) m /\
            (ends_with_hash output = false -> 1 <= m).
Proof.
  induction fuel as [|f IH]; intros output d o d' H; cbn in H; [discriminate|].
  destruct (ends_with_hash output) eqn:Ew.
  - injection H as _ <-; exists 0; rewrite app_nil_r; split; [reflexivity|discriminate].
  - unfold bind, read_until in H.
    destruct (take_until b_hash _) as [r rest].
    destruct (IH _ _ _ _ H) as [m [Hm _]]; cbn in Hm.
    exists (S m); split; [|lia].
    rewrite Hm, <- app_assoc; reflexivity.
Qed.

(** X9. A [run] that returns has made exactly these device calls:
    [reset_input_buffer()], [read_until(b'=')], [read_until(b'\n')], then
    one or more [read_until(b'#')]. *)
Theorem serial_run_call_sequence (fuel : nat) (d d' : serial_dev) (t : list Z) :
  serial_run (stlink_flash 0) fuel d = (Ok t, d') ->
  exists m, 1 <= m /\
    dev_log d' = dev_log d ++ [DResetInputBuffer; DReadUntil b_eq; DReadUntil b_nl]
                 ++ repeat (DReadUntil b_hash) m.
Proof.
  unfold serial_run, stlink_flash; cbn [Z.eqb]; unfold bind at 1, ret at 1.
  unfold bind at 1, reset_input_buffer at 1.
  unfold bind at 1, read_until at 1.
  destruct (take_until b_eq _) as [first r1]; cbn [rx_buffer line dev_log].
  destruct (negb (bytes_eqb first [b_eq])); [discriminate|].
  unfold bind at 1, read_until at 1.
  destruct (take_until b_nl _) as [start r2]; cbn [rx_buffer line dev_log].
  destruct (re_fullmatch Byte.eqb serial_start_pat start); [|discriminate].
  unfold bind.
  destruct (stream_loop fuel [] _) as [[o| |] d5] eqn:Es; try discriminate.
  intros H; injection H as _ <-.
  destruct (stream_loop_log _ _ _ _ _ Es) as [m [Hm Hm1]].
  exists m; split; [apply Hm1; reflexivity|].
  rewrite Hm; cbn [dev_log]; rewrite <- !app_assoc; reflexivity.
Qed.

Lemma serial_run_call_sequence_witness :
  exists m, 1 <= m /\
    dev_log (snd (serial_run (stlink_flash 0) 4
                    (dev0 [] (sent (bytes "=====" ++ [b_nl] ++ bytes "ok#"))))) =
    [DResetInputBuffer; DReadUntil b_eq; DReadUntil b_nl] ++ repeat (DReadUntil b_hash) m.
Proof.
  apply (serial_run_call_sequence 4 (dev0 [] (sent (bytes "=====" ++ [b_nl] ++ bytes "ok#")))
           (snd (serial_run (stlink_flash 0) 4
                   (dev0 [] (sent (bytes "=====" ++ [b_nl] ++ bytes "ok#")))))
           (map bv (bytes "ok"))).
  vm_compute; reflexivity.
Defined.

(** *** [ChipWhisperer.run] *)



(** *** [Qemu.Wrapper.read] *)

Lemma fill_read_spec (n : nat) (p : list pipe_item) :
  forall r rd, fill_read n p = (r, rd) ->
  r ++ rbuf rd ++ pipe_data (pipe rd) = pipe_data p /\
  List.length r = Nat.min n (List.length (pipe_data p)).
Proof.
  revert n; induction p as [|[bs|] p IH]; intros n r rd H; cbn in H |- *.
  - injection H as <- <-; cbn; split; [reflexivity|lia].
  - destruct (Nat.leb_spec n (List.length bs)) as [Hn|Hn].
    + injection H as <- <-; cbn [rbuf pipe].
      rewrite app_assoc, firstn_skipn; split; [reflexivity|].
      rewrite length_firstn, length_app; lia.
    + destruct (fill_read (n - List.length bs) p) as [r' rd'] eqn:E.
      injection H as <- <-.
      destruct (IH _ _ _ E) as [H1 H2].
      rewrite <- app_assoc, H1; split; [reflexivity|].
      rewrite !length_app, H2; lia.
  - apply (IH n r rd H).
Qed.

(** X11. [Wrapper.read(n)] raises [Exception("timeout")] exactly when the
    process's pipe is in a pause longer than the timeout, whether or not
    the reader holds unread bytes. Otherwise it returns
    [min(n, bytes available)] bytes, so [b''] at end of file, and loses
    none: what it returns followed by what remains is what was there. *)
Theorem wrapper_read_spec (n : nat) (rd : reader) :
  match pipe rd with
  | PGap :: p' =>
    wrapper_read n rd = (Raise (Exception "timeout"), {| rbuf := rbuf rd; pipe := p' |})
  | _ =>
    exists r rd', wrapper_read n rd = (Ok r, rd') /\
      r ++ rbuf rd' ++ pipe_data (pipe rd') = rbuf rd ++ pipe_data (pipe rd) /\
      List.length r = Nat.min n (List.length (rbuf rd ++ pipe_data (pipe rd)))
  end.
Proof.
  destruct rd as [b p]; unfold wrapper_read; cbn [rbuf pipe].
  assert (G : exists r rd', buffered_read n {| rbuf := b; pipe := p |} = (r, rd') /\
            r ++ rbuf rd' ++ pipe_data (pipe rd') = b ++ pipe_data p /\
            List.length r = Nat.min n (List.length (b ++ pipe_data p))).
  { unfold buffered_read; cbn [rbuf pipe].
    destruct (Nat.leb_spec n (List.length b)) as [Hn|Hn].
    - eexists _, _; split; [reflexivity|]; cbn [rbuf pipe].
      rewrite app_assoc, firstn_skipn; split; [reflexivity|].
      rewrite length_firstn, length_app; lia.
    - destruct (fill_read (n - List.length b) p) as [r rd'] eqn:E.
      destruct (fill_read_spec _ _ _ _ E) as [H1 H2].
      eexists _, _; split; [reflexivity|].
      rewrite <- app_assoc, H1; split; [reflexivity|].
      rewrite !length_app, H2; lia. }
  destruct G as [r [rd' [Hb [H1 H2]]]].
  destruct p as [|[bs|] p']; try reflexivity;
    rewrite Hb; exists r, rd'; tauto.
Qed.

(** X12. [select] does not see the reader's buffer: after a [read(n)]
    served by a larger chunk of output, a following pause makes the next
    [read] raise [Exception("timeout")] although the rest of that chunk
    is already buffered. *)
Theorem wrapper_read_timeout_with_buffered (n m : nat) (bs : list byte)
        (p : list pipe_item) :
  0 < n -> n < List.length bs ->
  wrapper_read n {| rbuf := []; pipe := PData bs :: PGap :: p |} =
    (Ok (firstn n bs), {| rbuf := skipn n bs; pipe := PGap :: p |}) /\
  skipn n bs <> [] /\
  wrapper_read m {| rbuf := skipn n bs; pipe := PGap :: p |} =
    (Raise (Exception "timeout"), {| rbuf := skipn n bs; pipe := p |}).
Proof.
  intros Hn Hl; split; [|split; [|reflexivity]].
  - unfold wrapper_read, buffered_read; cbn [pipe rbuf List.length].
    destruct (Nat.leb_spec n 0) as [H|_]; [lia|].
    cbn [fill_read]; rewrite Nat.sub_0_r.
    destruct (Nat.leb_spec n (List.length bs)) as [_|H]; [reflexivity|lia].
  - intros H; apply (f_equal (@List.length byte)) in H.
    rewrite length_skipn in H; cbn in H; lia.
Qed.

Lemma wrapper_read_timeout_with_buffered_witness :
  wrapper_read 1 {| rbuf := []; pipe := [PData (bytes "ab"); PGap; PData (bytes "c")] |} =
    (Ok (firstn 1 (bytes "ab")), {| rbuf := skipn 1 (bytes "ab"); pipe := [PGap; PData (bytes "c")] |}) /\
  skipn 1 (bytes "ab") <> [] /\
  wrapper_read 1 {| rbuf := skipn 1 (bytes "ab"); pipe := [PGap; PData (bytes "c")] |} =
    (Raise (Exception "timeout"), {| rbuf := skipn 1 (bytes "ab"); pipe := [PData (bytes "c")] |}).
Proof.
  apply (wrapper_read_timeout_with_buffered 1 1 (bytes "ab") [PData (bytes "c")]);
    cbn; lia.
Defined.

(** *** [Qemu] process lifecycle *)

Definition spawned (pid : nat) (l : list proc_op) : Prop :=
  exists a, In (PSpawn pid a) l.

(** Every process but the wrapper's has been stopped (stdout closed,
    terminated, killed); the wrapper's process is live; process numbers
    used so far are below [next_pid]. *)
Definition qemu_inv (q : qemu) : Prop :=
  (forall pid, spawned pid (proc_log q) -> pid < next_pid q) /\
  (forall pid, In (PTerminate pid) (proc_log q) \/ In (PKill pid) (proc_log q) ->
               pid < next_pid q) /\
  (forall pid, wrapper q = Some pid ->
     spawned pid (proc_log q) /\ ~ In (PTerminate pid) (proc_log q) /\
     ~ In (PKill pid) (proc_log q)) /\
  (forall pid, spawned pid (proc_log q) -> wrapper q <> Some pid ->
     In (PCloseStdout pid) (proc_log q) /\ In (PTerminate pid) (proc_log q) /\
     In (PKill pid) (proc_log q)).

Lemma bind_preserves {S A B} (P : S -> Prop) (m : M S A) (k : A -> M S B) :
  (forall s, P s -> P (snd (m s))) -> (forall a s, P s -> P (snd (k a s))) ->
  forall s, P s -> P (snd (bind m k s)).
Proof.
  intros Hm Hk s Hs; unfold bind.
  specialize (Hm s Hs); destruct (m s) as [[a| |] s']; cbn in *; auto.
Qed.

Lemma drop_wrapper_inv (q : qemu) :
  qemu_inv q -> qemu_inv (snd (drop_wrapper q)) /\ wrapper (snd (drop_wrapper q)) = None.
Proof.
  destruct q as [mc w np lg]; unfold drop_wrapper, bind, get_wrapper, qemu_inv; cbn.
  destruct w as [w|]; cbn; [|intros H; split; [exact H | reflexivity]].
  intros (H1 & H2 & H3 & H4); split; [|reflexivity].
  destruct (H3 w eq_refl) as [Hw _]; cbn in *.
  unfold spawned in *.
  split; [|split; [|split]].
  - intros pid [a Ha]; apply in_app_or in Ha; destruct Ha as [Ha|Ha];
      [apply H1; exists a; exact Ha | cbn in Ha; intuition discriminate].
  - intros pid Hp; rewrite !in_app_iff in Hp.
    destruct Hp as [[Hp|Hp]|[Hp|Hp]]; [apply H2; tauto| |apply H2; tauto|];
      cbn in Hp; destruct Hp as [Hp|[Hp|[Hp|[]]]]; try discriminate;
      injection Hp as <-; apply H1; exact Hw.
  - discriminate.
  - intros pid [a Ha] _; rewrite !in_app_iff; cbn.
    apply in_app_or in Ha; destruct Ha as [Ha|Ha]; [|cbn in Ha; intuition discriminate].
    destruct (Nat.eq_dec pid w) as [->|Hne]; [tauto|].
    destruct (H4 pid (ex_intro _ a Ha) ltac:(congruence)) as (C & T & K); tauto.
Qed.

Lemma qemu_flash_inv (pf : M qemu unit) (path : string) (q : qemu) :
  (forall q0, snd (pf q0) = q0) -> qemu_inv q -> qemu_inv (snd (qemu_flash pf path q)).
Proof.
  intros Hpf Hq; unfold qemu_flash.
  apply (bind_preserves qemu_inv); [intros s Hs; rewrite Hpf; exact Hs| |exact Hq].
  intros _ s Hs; unfold bind at 1.
  destruct (drop_wrapper_inv s Hs) as [Hd Hw].
  destruct (drop_wrapper s) as [[u| |] s1]; cbn in Hd, Hw |- *; try exact Hd.
  destruct s1 as [mc w np lg]; cbn in *; subst w.
  destruct Hd as (H1 & H2 & _ & H4).
  cbn [proc_log wrapper next_pid machine] in H1, H2, H4.
  unfold qemu_inv; cbn [proc_log wrapper next_pid machine].
  unfold spawned in *.
  split; [|split; [|split]]; cbn.
  - intros pid [a Ha]; apply in_app_or in Ha; destruct Ha as [Ha|Ha].
    + specialize (H1 pid (ex_intro _ a Ha)); lia.
    + destruct Ha as [Ha|[]]; injection Ha as -> _; lia.
  - intros pid Hp; rewrite !in_app_iff in Hp; cbn in Hp.
    destruct Hp as [[Hp|[Hp|[]]]|[Hp|[Hp|[]]]]; try discriminate;
      [specialize (H2 pid (or_introl Hp)) | specialize (H2 pid (or_intror Hp))]; lia.
  - intros pid E; injection E as <-.
    split; [exists (qemu_args mc path); apply in_or_app; right; left; reflexivity|].
    split; intros Hp; apply in_app_or in Hp; destruct Hp as [Hp|[Hp|[]]]; try discriminate;
      [specialize (H2 np (or_introl Hp)) | specialize (H2 np (or_intror Hp))]; lia.
  - intros pid [a Ha] Hne; apply in_app_or in Ha.
    destruct Ha as [Ha|[Ha|[]]]; [|injection Ha as -> _; congruence].
    destruct (H4 pid (ex_intro _ a Ha) ltac:(discriminate)) as (C & T & K).
    rewrite !in_app_iff; tauto.
Qed.

Lemma qemu_exit_inv (pe : M qemu unit) (q : qemu) :
  (forall q0, snd (pe q0) = q0) -> qemu_inv q -> qemu_inv (snd (qemu_exit pe q)).
Proof.
  intros Hpe Hq; unfold qemu_exit.
  apply (bind_preserves qemu_inv); [apply drop_wrapper_inv | | exact Hq].
  intros _ s Hs; rewrite Hpe; exact Hs.
Qed.

(** X13. However a [Qemu] object is used, at most one QEMU process is left
    running: after any sequence of [flash] and [__exit__] calls on a new
    object, every process it spawned is either the one in
    [self.wrapper], not terminated, or has had its stdout closed and been
    terminated and killed. *)
Theorem qemu_single_live_process (pf pe : M qemu unit) (m : string)
        (calls : list qemu_call) (pid : nat) :
  (forall q0, snd (pf q0) = q0) -> (forall q0, snd (pe q0) = q0) ->
  spawned pid (proc_log (snd (qemu_session pf pe calls (qemu_init m)))) ->
  (wrapper (snd (qemu_session pf pe calls (qemu_init m))) = Some pid /\
   ~ In (PTerminate pid) (proc_log (snd (qemu_session pf pe calls (qemu_init m)))) /\
   ~ In (PKill pid) (proc_log (snd (qemu_session pf pe calls (qemu_init m))))) \/
  (wrapper (snd (qemu_session pf pe calls (qemu_init m))) <> Some pid /\
   In (PCloseStdout pid) (proc_log (snd (qemu_session pf pe calls (qemu_init m)))) /\
   In (PTerminate pid) (proc_log (snd (qemu_session pf pe calls (qemu_init m)))) /\
   In (PKill pid) (proc_log (snd (qemu_session pf pe calls (qemu_init m))))).
Proof.
  intros Hpf Hpe.
  assert (Hinv : forall cs q, qemu_inv q -> qemu_inv (snd (qemu_session pf pe cs q))).
  { induction cs as [|[path|] cs IH]; intros q Hq; cbn [qemu_session]; [exact Hq| |].
    - apply (bind_preserves qemu_inv); [intros s Hs; apply qemu_flash_inv; assumption
                                       | intros _ s Hs; apply IH, Hs | exact Hq].
    - apply (bind_preserves qemu_inv); [intros s Hs; apply qemu_exit_inv; assumption
                                       | intros _ s Hs; apply IH, Hs | exact Hq]. }
  assert (H0 : qemu_inv (qemu_init m)).
  { unfold qemu_init, qemu_inv, spawned; cbn.
    split; [intros ? [? []]|split; [intros ? [[]|[]]|split; [discriminate|intros ? [? []]]]]. }
  destruct (Hinv calls _ H0) as (_ & _ & H3 & H4).
  intros Hs.
  destruct (wrapper (snd (qemu_session pf pe calls (qemu_init m)))) as [w|] eqn:Ew.
  - destruct (Nat.eq_dec w pid) as [->|Hne].
    + left; destruct (H3 pid eq_refl) as (_ & T & K); tauto.
    + right; rewrite <- Ew; split; [congruence|]; apply H4; [exact Hs | congruence].
  - right; rewrite <- Ew; split; [congruence|]; apply H4; [exact Hs | congruence].
Qed.

Lemma qemu_single_live_process_witness :
  let q := snd (qemu_session (ret tt) (ret tt) [QFlash "a.elf"; QFlash "b.elf"; QExit; QFlash "c.elf"]%string
                             (qemu_init "mps2-an386")) in
  spawned 0 (proc_log q) /\
  ((wrapper q = Some 0 /\ ~ In (PTerminate 0) (proc_log q) /\ ~ In (PKill 0) (proc_log q)) \/
   (wrapper q <> Some 0 /\ In (PCloseStdout 0) (proc_log q) /\ In (PTerminate 0) (proc_log q) /\
    In (PKill 0) (proc_log q))).
Proof.
  assert (Hs : spawned 0 (proc_log (snd (qemu_session (ret tt) (ret tt)
                 [QFlash "a.elf"; QFlash "b.elf"; QExit; QFlash "c.elf"]%string
                 (qemu_init "mps2-an386"))))).
  { exists (qemu_args "mps2-an386" "a.elf"); cbn; tauto. }
  split; [exact Hs|].
  apply (qemu_single_live_process (ret tt) (ret tt) "mps2-an386"
           [QFlash "a.elf"; QFlash "b.elf"; QExit; QFlash "c.elf"]%string 0);
    [intros; reflexivity | intros; reflexivity | exact Hs].
Defined.

(** X14. When [super().flash] returns, [Qemu.flash] stops the running
    process (if any: stdout closed, terminated, killed) before it spawns
    [qemu-system-arm -cpu cortex-m4 -M <machine> -nographic -kernel
    <binary>], and [device()] then returns the new process. *)
Theorem qemu_flash_restarts (pf : M qemu unit) (path : string) (q : qemu) :
  (forall q0, pf q0 = (Ok tt, q0)) ->
  exists q', qemu_flash pf path q = (Ok tt, q') /\
    proc_log q' = proc_log q
                  ++ match wrapper q with
                     | Some w => [PCloseStdout w; PTerminate w; PKill w]
                     | None => []
                     end
                  ++ [PSpawn (next_pid q) (qemu_args (machine q) path)] /\
    qemu_device q' = (Ok (next_pid q), q').
Proof.
  intros Hpf; unfold qemu_flash; erewrite bind_ok by apply Hpf.
  destruct q as [mc [w|] np lg];
    (eexists; split; [reflexivity|]); cbn; rewrite ?app_nil_r, <- ?app_assoc;
    split; reflexivity.
Qed.

Lemma qemu_flash_restarts_witness :
  exists q', qemu_flash (ret tt) "b.elf"%string
               (snd (qemu_flash (ret tt) "a.elf"%string (qemu_init "mps2-an386"))) = (Ok tt, q') /\
    proc_log q' = [PSpawn 0 (qemu_args "mps2-an386" "a.elf")]
                  ++ [PCloseStdout 0; PTerminate 0; PKill 0]
                  ++ [PSpawn 1 (qemu_args "mps2-an386" "b.elf")] /\
    qemu_device q' = (Ok 1, q').
Proof.
  apply (qemu_flash_restarts (ret tt) "b.elf"
           (snd (qemu_flash (ret tt) "a.elf" (qemu_init "mps2-an386")))).
  intros; reflexivity.
Defined.

(** X15. [Qemu.__exit__] stops the running process, if any, and clears
    [self.wrapper]: a second [__exit__] touches no process, and
    [device()] then raises [Exception("No process started yet")], as it
    does on a new object. *)
Theorem qemu_exit_idempotent {R} (pe : M qemu R) (q : qemu) :
  (forall q0, snd (pe q0) = q0) ->
  wrapper (snd (qemu_exit pe q)) = None /\
  proc_log (snd (qemu_exit pe q)) =
    proc_log q ++ match wrapper q with
                  | Some w => [PCloseStdout w; PTerminate w; PKill w]
                  | None => []
                  end /\
  snd (qemu_exit pe (snd (qemu_exit pe q))) = snd (qemu_exit pe q) /\
  fst (qemu_device (snd (qemu_exit pe q))) = Raise (Exception "No process started yet") /\
  fst (qemu_device (qemu_init (machine q))) = Raise (Exception "No process started yet").
Proof.
  intros Hpe.
  assert (E : forall q0, snd (qemu_exit pe q0) = snd (drop_wrapper q0)).
  { intros q0; unfold qemu_exit, bind.
    destruct (drop_wrapper q0) as [[u| |] q1]; [apply Hpe | reflexivity | reflexivity]. }
  rewrite !E.
  destruct q as [mc [w|] np lg]; cbn; rewrite ?app_nil_r; repeat split.
Qed.

Lemma qemu_exit_idempotent_witness :
  let q := snd (qemu_flash (ret tt) "a.elf"%string (qemu_init "mps2-an386")) in
  wrapper (snd (qemu_exit (ret true) q)) = None /\
  proc_log (snd (qemu_exit (ret true) q)) =
    proc_log q ++ [PCloseStdout 0; PTerminate 0; PKill 0] /\
  snd (qemu_exit (ret true) (snd (qemu_exit (ret true) q))) = snd (qemu_exit (ret true) q) /\
  fst (qemu_device (snd (qemu_exit (ret true) q))) = Raise (Exception "No process started yet") /\
  fst (qemu_device (qemu_init (machine q))) = Raise (Exception "No process started yet").
Proof.
  apply (qemu_exit_idempotent (ret true)
           (snd (qemu_flash (ret tt) "a.elf"%string (qemu_init "mps2-an386")))).
  intros; reflexivity.
Defined.
